(** * Event store and read-model projector: a shallow embedding

    The development follows [src/event-store.ts] (the abstract [EventStore]
    facade) and [src/types.ts] (the data model and the
    [InMemoryReadModelProjector]).  JavaScript objects used as dictionaries
    are finite maps, asynchronous methods are computations in a state and
    exception monad, and a promise that is started without being awaited is
    recorded as a pending task. *)

From Stdlib Require Import ZArith Lia.
From stdpp Require Import base option list strings gmap pretty sorting.

Local Open Scope Z_scope.

(** ** JavaScript values *)

(** Scalar values found in metadata, payloads and projection state. *)
Inductive JsVal :=
| VStr (s : string)
| VNum (n : Z)
| VBool (b : bool).

#[global] Instance JsVal_eq_dec : EqDecision JsVal.
Proof. solve_decision. Defined.

(** A [number] that is used as a stream position: an integer or [NaN]. *)
Inductive JsNum :=
| Num (n : Z)
| NaN.

#[global] Instance JsNum_eq_dec : EqDecision JsNum.
Proof. solve_decision. Defined.

(** The double nearest to an integer, ties going to the even mantissa.
    Integers of magnitude up to [2^53] are doubles themselves; beyond, the
    doubles between [2^e] and [2^(e+1)] lie [2^(e-52)] apart.  (No integer
    that a double can hold rounds to an infinity.) *)
Definition to_double (m : Z) : Z :=
  if Z.abs m <=? 2 ^ 53 then m
  else
    let k := Z.log2 (Z.abs m) - 52 in
    let q := m / 2 ^ k in
    let r := m mod 2 ^ k in
    let half := 2 ^ (k - 1) in
    if r <? half then q * 2 ^ k
    else if half <? r then (q + 1) * 2 ^ k
    else if Z.even q then q * 2 ^ k
    else (q + 1) * 2 ^ k.

(** [x + 1] on a number: the sum is rounded to a double, so that from
    [2^53] on adding one may change nothing. *)
Definition js_succ (x : JsNum) : JsNum :=
  match x with
  | Num n => Num (to_double (n + 1))
  | NaN => NaN
  end.

(** [o[k]++] reads [o[k]], which is [undefined] for a missing key, and
    stores the incremented number; [undefined + 1] is [NaN]. *)
Definition js_incr (o : gmap string JsNum) (k : string) : gmap string JsNum :=
  match o !! k with
  | Some x => <[k := js_succ x]> o
  | None => <[k := NaN]> o
  end.

(** Property-key conversion of [o[v]]: the key is the string of the value,
    and a missing value is the key ["undefined"]. *)
Definition js_key (v : option JsVal) : string :=
  match v with
  | Some (VStr s) => s
  | Some (VNum n) => pretty n
  | Some (VBool true) => "true"
  | Some (VBool false) => "false"
  | None => "undefined"
  end.

(** The names a plain object inherits from [Object.prototype]: reading
    one of them on an object that has no property of that name gives the
    inherited function (for [__proto__], the prototype), not [undefined]. *)
Definition object_prototype : list string :=
  ["constructor"; "__defineGetter__"; "__defineSetter__"; "hasOwnProperty";
   "__lookupGetter__"; "__lookupSetter__"; "isPrototypeOf";
   "propertyIsEnumerable"; "toString"; "valueOf"; "__proto__";
   "toLocaleString"].

(** The object spread [{...a, ...b}]: the keys of [b] win. *)
Definition js_spread {V} (a b : gmap string V) : gmap string V := b ∪ a.

(** ** Data model of [types.ts] *)

Abbreviation IState := (gmap string JsVal).
Abbreviation EventMetadata := (gmap string JsVal).

Record IEvent := {
  ev_no : Z;
  ev_uuid : string;
  ev_name : string;
  ev_payload : gmap string JsVal;
  ev_metadata : EventMetadata;
  ev_createdAt : Z
}.

Definition withNo (n : Z) (e : IEvent) : IEvent :=
  {| ev_no := n; ev_uuid := ev_uuid e; ev_name := ev_name e;
     ev_payload := ev_payload e; ev_metadata := ev_metadata e;
     ev_createdAt := ev_createdAt e |}.

Definition withMetadata (m : EventMetadata) (e : IEvent) : IEvent :=
  {| ev_no := ev_no e; ev_uuid := ev_uuid e; ev_name := ev_name e;
     ev_payload := ev_payload e; ev_metadata := m;
     ev_createdAt := ev_createdAt e |}.

Inductive EventAction := PRE_APPEND | APPEND_ERRORED | APPENDED | LOADED.

#[global] Instance EventAction_eq_dec : EqDecision EventAction.
Proof. solve_decision. Defined.

Inductive MetadataOperator :=
| EQUALS | GREATER_THAN | GREATER_THAN_EQUALS | IN | LOWER_THAN
| LOWER_THAN_EQUALS | NOT_EQUALS | NOT_IN | REGEX.

Inductive FieldType := METADATA | MESSAGE_PROPERTY.

(** The operand of a clause: an array for [in] and [nin], a scalar
    otherwise. *)
Inductive MatchValue :=
| Scalar (v : JsVal)
| Array (vs : list JsVal).

Record MetadataMatch := {
  mm_field : string;
  mm_value : MatchValue;
  mm_operation : MetadataOperator;
  mm_fieldType : FieldType
}.

Record IMetadataMatcher := { mm_data : list MetadataMatch }.

Record LoadStreamParameter := {
  lsp_streamName : string;
  lsp_fromNumber : option JsNum;
  lsp_count : option Z;
  lsp_matcher : option IMetadataMatcher
}.

Record IStream := { streamName : string; matcher : IMetadataMatcher }.

Inductive ProjectionStatus :=
| IDLE | RUNNING | STOPPING | DELETING | DELETING_INCL_EMITTED_EVENTS
| RESETTING.

#[global] Instance ProjectionStatus_eq_dec : EqDecision ProjectionStatus.
Proof. solve_decision. Defined.

(** ** Errors *)

Inductive ProjectorExceptionKind :=
| alreadyInitialized
| fromWasAlreadyCalled
| whenWasAlreadyCalled
| noHandler
| stateWasNotInitialised.

Inductive Error :=
| ProjectorException (k : ProjectorExceptionKind)
| ProjectionNotFound (projection : string)
| StreamAlreadyExists (stream : string)
| StreamNotFound (stream : string)
| ConcurrencyError
| BackendError (message : string).

#[global] Instance ProjectorExceptionKind_eq_dec : EqDecision ProjectorExceptionKind.
Proof. solve_decision. Defined.

#[global] Instance Error_eq_dec : EqDecision Error.
Proof. solve_decision. Defined.

(** ** Computations: state passing with exceptions

    A computation takes the state, always returns the state it leaves
    behind, and either throws or returns a value.  What was mutated before
    a [throw] stays mutated, as in JavaScript. *)

Definition M (S A : Type) : Type := S → S * (Error + A).

Definition ret {S A} (a : A) : M S A := λ s, (s, inr a).

Definition throw {S A} (e : Error) : M S A := λ s, (s, inl e).

Definition bind {S A B} (c : M S A) (k : A → M S B) : M S B :=
  λ s, match c s with
       | (s', inr a) => k a s'
       | (s', inl e) => (s', inl e)
       end.

(** [try { c } catch (e) { h e }] *)
Definition try_catch {S A} (c : M S A) (h : Error → M S A) : M S A :=
  λ s, match c s with
       | (s', inr a) => (s', inr a)
       | (s', inl e) => h e s'
       end.

Definition gets {S A} (f : S → A) : M S A := λ s, (s, inr (f s)).

Definition modify {S} (f : S → S) : M S unit := λ s, (f s, inr tt).

Notation "'let*' x ':=' c 'in' k" := (bind c (λ x, k))
  (at level 10, x name, c at level 100, k at level 200).
Notation "c1 '>>' c2" := (bind c1 (λ _, c2))
  (at level 100, c2 at level 200, right associativity).

(** Running a computation of a component inside a larger state. *)
Definition zoom {S T A} (get : T → S) (set : S → T → T) (c : M S A) : M T A :=
  λ t, let '(s', r) := c (get t) in (set s' t, r).

(** ** The persistence strategy

    [PersistenceStrategy] is an interface in [event-store.ts]; the engine
    never looks inside it.  A strategy is a type of back-end states with one
    operation per method; every method may throw and may change the
    back-end. *)

Class PersistenceStrategy (Store : Type) := {
  ps_addStreamToStreamsTable : string → M Store unit;
  ps_removeStreamFromStreamsTable : string → M Store unit;
  ps_deleteStream : string → M Store unit;
  ps_createSchema : string → M Store unit;
  ps_dropSchema : string → M Store unit;
  ps_appendTo : string → list IEvent → M Store unit;
  ps_mergeAndLoad : list LoadStreamParameter → M Store (list IEvent);
  ps_hasStream : string → M Store bool
}.

(** The read model of a read-model projector, the [IReadModel] interface. *)
Class ReadModel (RM : Type) := {
  rm_init : M RM unit;
  rm_isInitialized : M RM bool;
  rm_persist : M RM unit;
  rm_delete : M RM unit;
  rm_reset : M RM unit
}.

(** ** Middleware *)

(** A middleware handler receives the event and the action.  Its third
    argument, the store, is not modelled: a handler is a function of the
    event that returns an event or throws. *)
Definition EventCallback : Type := IEvent → EventAction → Error + IEvent.

Record EventMiddleWare := {
  mw_action : EventAction;
  mw_handler : EventCallback
}.

Record MiddlewareCollection := {
  on_APPEND_ERRORED : list EventCallback;
  on_PRE_APPEND : list EventCallback;
  on_APPENDED : list EventCallback;
  on_LOADED : list EventCallback
}.

Definition emptyMiddleware : MiddlewareCollection :=
  {| on_APPEND_ERRORED := []; on_PRE_APPEND := []; on_APPENDED := [];
     on_LOADED := [] |}.

(** [this.middleware[action]] *)
Definition bucket (c : MiddlewareCollection) (a : EventAction) : list EventCallback :=
  match a with
  | APPEND_ERRORED => on_APPEND_ERRORED c
  | PRE_APPEND => on_PRE_APPEND c
  | APPENDED => on_APPENDED c
  | LOADED => on_LOADED c
  end.

(** [carry[action].push(handler)] *)
Definition push (c : MiddlewareCollection) (a : EventAction) (h : EventCallback)
  : MiddlewareCollection :=
  match a with
  | APPEND_ERRORED =>
      {| on_APPEND_ERRORED := on_APPEND_ERRORED c ++ [h];
         on_PRE_APPEND := on_PRE_APPEND c; on_APPENDED := on_APPENDED c;
         on_LOADED := on_LOADED c |}
  | PRE_APPEND =>
      {| on_APPEND_ERRORED := on_APPEND_ERRORED c;
         on_PRE_APPEND := on_PRE_APPEND c ++ [h];
         on_APPENDED := on_APPENDED c; on_LOADED := on_LOADED c |}
  | APPENDED =>
      {| on_APPEND_ERRORED := on_APPEND_ERRORED c;
         on_PRE_APPEND := on_PRE_APPEND c;
         on_APPENDED := on_APPENDED c ++ [h]; on_LOADED := on_LOADED c |}
  | LOADED =>
      {| on_APPEND_ERRORED := on_APPEND_ERRORED c;
         on_PRE_APPEND := on_PRE_APPEND c; on_APPENDED := on_APPENDED c;
         on_LOADED := on_LOADED c ++ [h] |}
  end.

(** The constructor of [EventStore]: the configured middleware is sorted
    into the four buckets by a [reduce] that pushes each handler. *)
Definition EventStore_constructor (middleware : list EventMiddleWare)
  : MiddlewareCollection :=
  fold_left (λ carry m, push carry (mw_action m) (mw_handler m))
            middleware emptyMiddleware.

(** [handlers.reduce(async (event, handler) => handler(await event, action,
    this), Promise.resolve(event))]: the accumulator is a promise of an
    event; a rejected accumulator rejects every later step. *)
Definition chain (action : EventAction) (handlers : list EventCallback)
  (event : IEvent) : Error + IEvent :=
  fold_left (λ acc handler,
               match acc with
               | inr e => handler e action
               | inl err => inl err
               end)
            handlers (inr event).

(** [Promise.all(events.map(f))]: the events in order when every promise
    fulfils.  When several reject, the first in batch order is reported. *)
Fixpoint promise_all {A B} (f : A → Error + B) (l : list A) : Error + list B :=
  match l with
  | [] => inr []
  | x :: l' =>
      match f x with
      | inl e => inl e
      | inr y =>
          match promise_all f l' with
          | inl e => inl e
          | inr ys => inr (y :: ys)
          end
      end
  end.

(** ** The world outside a projector *)

(** A row of the projections table.  A row written by [persist] over a
    missing row has no status. *)
Record ProjectionRecord := {
  pr_state : IState;
  pr_positions : gmap string JsNum;
  pr_status : option ProjectionStatus
}.

(** Calls that leave the engine and writes to the shared projections
    table, logged newest first. *)
Inductive Call :=
| addStreamToStreamsTable_call (stream : string)
| removeStreamFromStreamsTable_call (stream : string)
| deleteStream_call (stream : string)
| createSchema_call (stream : string)
| dropSchema_call (stream : string)
| appendTo_call (stream : string) (events : list IEvent)
| mergeAndLoad_call (streams : list LoadStreamParameter)
| hasStream_call (stream : string)
| readModel_init_call
| readModel_isInitialized_call
| readModel_persist_call
| readModel_delete_call
| readModel_reset_call
| fetchProjectionStatus_call (projection : string)
| idleProjection_call (projection : string)
| projections_write (projection : string) (record : ProjectionRecord)
| projections_delete (projection : string)
| console_warn (error : Error)
| handler_call (event : IEvent).

(** A promise that was created and not awaited: its work has not happened
    when the creating method goes on. *)
Inductive Task :=
| MiddlewareTask (action : EventAction) (handlers : list EventCallback)
    (event : IEvent)
| AppendTask (stream : string) (events : list IEvent).

Record World (Store RM : Type) := {
  store : Store;
  readModel : RM;
  projections : gmap string ProjectionRecord;
  trace : list Call;
  pending : list Task
}.

Arguments store {Store RM} _.
Arguments readModel {Store RM} _.
Arguments projections {Store RM} _.
Arguments trace {Store RM} _.
Arguments pending {Store RM} _.

(** The projection manager, the [IProjectionManager] interface, as far as
    the projector calls it.  It works on the projections table, which the
    in-memory projector receives from it.  The status of a row that has
    none is [None]. *)
Class ProjectionManager := {
  mg_fetchProjectionStatus :
    string → M (gmap string ProjectionRecord) (option ProjectionStatus);
  mg_idleProjection : string → M (gmap string ProjectionRecord) unit
}.

Section WorldOps.
Context {Store RM : Type}.

Definition set_store (s : Store) (w : World Store RM) : World Store RM :=
  {| store := s; readModel := readModel w; projections := projections w;
     trace := trace w; pending := pending w |}.

Definition set_readModel (r : RM) (w : World Store RM) : World Store RM :=
  {| store := store w; readModel := r; projections := projections w;
     trace := trace w; pending := pending w |}.

Definition set_projections (p : gmap string ProjectionRecord)
  (w : World Store RM) : World Store RM :=
  {| store := store w; readModel := readModel w; projections := p;
     trace := trace w; pending := pending w |}.

Definition log (c : Call) : M (World Store RM) unit :=
  modify (λ w, {| store := store w; readModel := readModel w;
                  projections := projections w; trace := c :: trace w;
                  pending := pending w |}).

Definition spawn (ts : list Task) : M (World Store RM) unit :=
  modify (λ w, {| store := store w; readModel := readModel w;
                  projections := projections w; trace := trace w;
                  pending := pending w ++ ts |}).

(** A call on the persistence strategy: logged, then performed. *)
Definition persistence {A} (c : Call) (op : M Store A) : M (World Store RM) A :=
  log c >> zoom store set_store op.

(** A call on the read model. *)
Definition on_readModel {A} (c : Call) (op : M RM A) : M (World Store RM) A :=
  log c >> zoom readModel set_readModel op.

(** A call on the projection manager. *)
Definition on_manager {A} (c : Call) (op : M (gmap string ProjectionRecord) A)
  : M (World Store RM) A :=
  log c >> zoom projections set_projections op.

(** [this.projections[name] = record] *)
Definition write_projection (name : string) (record : ProjectionRecord)
  : M (World Store RM) unit :=
  log (projections_write name record) >>
  modify (λ w, set_projections (<[name := record]> (projections w)) w).

(** [delete this.projections[name]] *)
Definition delete_projection (name : string) : M (World Store RM) unit :=
  log (projections_delete name) >>
  modify (λ w, set_projections (delete name (projections w)) w).
End WorldOps.

(** ** [EventStore] *)

Module EventStore.
Section EventStore.
Context {Store RM : Type} `{!PersistenceStrategy Store}.
Variable middleware : MiddlewareCollection.

Abbreviation W := (World Store RM).

Definition createStream (streamName : string) : M W unit :=
  let* registered :=
    try_catch
      (persistence (addStreamToStreamsTable_call streamName)
         (ps_addStreamToStreamsTable streamName) >> ret true)
      (λ error, log (console_warn error) >> ret false) in
  if registered : bool then
    try_catch
      (persistence (createSchema_call streamName) (ps_createSchema streamName))
      (λ error,
         persistence (removeStreamFromStreamsTable_call streamName)
           (ps_removeStreamFromStreamsTable streamName) >>
         persistence (dropSchema_call streamName) (ps_dropSchema streamName) >>
         throw error)
  else ret tt.

(** Before its first [await] the method has only started the
    [PRE_APPEND] chains, whose steps all begin with an [await]; the
    definition is the method run to completion.  The [APPENDED] and
    [APPEND_ERRORED] chains are started by [forEach] and never awaited. *)
Definition appendTo (streamName : string) (events : list IEvent) : M W unit :=
  match events with
  | [] => ret tt
  | _ :: _ =>
      match promise_all (chain PRE_APPEND (bucket middleware PRE_APPEND)) events with
      | inl e => throw e
      | inr events =>
          try_catch
            (persistence (appendTo_call streamName events)
               (ps_appendTo streamName events) >>
             spawn (map (MiddlewareTask APPENDED (bucket middleware APPENDED))
                        events))
            (λ e,
               spawn (map (MiddlewareTask APPEND_ERRORED
                             (bucket middleware APPEND_ERRORED)) events) >>
               throw e)
      end
  end.

(** Modelled from the spec: [MiddlewareIterator] (middleware/iterator) is
    not among the sources.  Each pull folds the transformers over the
    event, a transformer may replace the event (§4.7), and a failure of a
    [LOADED] transformer is logged and not propagated (§7): the event
    goes on as it was.  The sequence is a list, so the transformers have
    run over all of it when the first event is handled; with handlers
    that are functions of the event this shows only in the place of the
    warnings in the trace. *)
Definition MiddlewareIterator (iterator : list IEvent)
  (handlers : list EventCallback) : M W (list IEvent) :=
  fold_right
    (λ event rest,
       let* event' :=
         fold_left
           (λ acc handler,
              let* e := acc in
              match handler e LOADED with
              | inr e' => ret e'
              | inl err => log (console_warn err) >> ret e
              end)
           handlers (ret event) in
       let* events := rest in
       ret (event' :: events))
    (ret []) iterator.

Definition mergeAndLoad (streams : list LoadStreamParameter) : M W (list IEvent) :=
  let* iterator :=
    persistence (mergeAndLoad_call streams) (ps_mergeAndLoad streams) in
  MiddlewareIterator iterator (bucket middleware LOADED).

Definition hasStream (streamName : string) : M W bool :=
  persistence (hasStream_call streamName) (ps_hasStream streamName).

Definition deleteStream (streamName : string) : M W unit :=
  persistence (deleteStream_call streamName) (ps_deleteStream streamName).

(** What a pending task does when the event loop gets to it.  Nobody
    holds its promise: a rejection goes nowhere.  A middleware chain leaves
    the world as it is, its handlers being functions of the event. *)
Definition run_task (t : Task) : M W unit :=
  match t with
  | MiddlewareTask _ _ _ => ret tt
  | AppendTask streamName events =>
      try_catch (appendTo streamName events) (λ _, ret tt)
  end.
End EventStore.

Section Registry.
Context {A : Type}.

(** Whether an object of the registry has, on itself or up its prototype
    chain, a property of the given name with a truthy value.  It matters
    only where an entry named [__proto__] made such an object the
    prototype of the registry. *)
Variable inherits : A → string → bool.

(** A plain object that started as [{}]: its own properties in the order
    of their creation, and the object that an assignment to [__proto__]
    put in the place of [Object.prototype], if any. *)
Record PlainObject := {
  own : list (string * A);
  proto : option A
}.

(** [o[k] = v] on the own properties: a property that exists keeps its
    place, a new one goes to the end. *)
Fixpoint own_set (k : string) (v : A) (l : list (string * A)) : list (string * A) :=
  match l with
  | [] => [(k, v)]
  | (k', v') :: l' =>
      if bool_decide (k' = k) then (k, v) :: l'
      else (k', v') :: own_set k v l'
  end.

Definition own_get (k : string) (l : list (string * A)) : option A :=
  snd <$> List.find (λ e, bool_decide (e.1 = k)) l.

(** [acc[name] = x], where [x] is an object: the name [__proto__] is a
    setter of [Object.prototype] that replaces the prototype and creates
    no property. *)
Definition js_assign (name : string) (x : A) (o : PlainObject) : PlainObject :=
  if bool_decide (name = "__proto__")
  then {| own := own o; proto := Some x |}
  else {| own := own_set name x (own o); proto := proto o |}.

(** The three registries of the constructor, [_eventMap], [_projections]
    and [_readModelProjections], are built by the same [reduce]: every
    entry is assigned under its name to an object that starts empty. *)
Definition index_by_name (entries : list (string * A)) : PlainObject :=
  fold_left (λ acc entry, js_assign entry.1 entry.2 acc) entries
            {| own := []; proto := None |}.

(** What a read of the registry finds: an object that was registered, or
    a property inherited through the prototype. *)
Inductive Found :=
| Registered (projection : A)
| Inherited (property : string).

(** [getProjector] and [getReadModelProjector]: [this._projections[name]]
    is returned when it is truthy, else [ProjectionNotFound] is thrown.
    Registered objects and the properties of [Object.prototype] are
    truthy. *)
Definition getProjector (registry : PlainObject) (name : string) : Error + Found :=
  match own_get name (own registry) with
  | Some projection => inr (Registered projection)
  | None =>
      let inherited :=
        match proto registry with
        | Some object => inherits object name
        | None => bool_decide (name ∈ object_prototype)
        end in
      if inherited then inr (Inherited name)
      else inl (ProjectionNotFound name)
  end.
End Registry.

Arguments own {A} _.
Arguments proto {A} _.
Arguments Registered {A} _.
Arguments Inherited {A} _.

(** The decimal digits of a string, as a number. *)
Fixpoint parse_digits (s : string) (acc : N) : option N :=
  match s with
  | EmptyString => Some acc
  | String c s' =>
      let d := Ascii.N_of_ascii c in
      if ((48 <=? d) && (d <=? 57))%N
      then parse_digits s' (10 * acc + (d - 48))%N
      else None
  end.

(** An array index is a key that is the canonical decimal string of an
    integer from 0 to [2^32 - 2]. *)
Definition array_index (s : string) : option N :=
  match s with
  | EmptyString => None
  | _ =>
      match parse_digits s 0 with
      | Some n =>
          if bool_decide (pretty n = s) && (n <? 2 ^ 32 - 1)%N then Some n
          else None
      | None => None
      end
  end.

Definition index_le (a b : N * string) : Prop := (a.1 ≤ b.1)%N.

#[global] Instance index_le_dec : RelDecision index_le.
Proof. intros a b. unfold index_le. apply _. Defined.

(** [Object.keys(o)]: the own keys that are array indices in ascending
    order, then the other keys in the order of their creation. *)
Definition Object_keys {A} (o : PlainObject (A := A)) : list string :=
  let keys := (own o).*1 in
  (merge_sort index_le
     (omap (λ k, (λ n, (n, k)) <$> array_index k) keys)).*2 ++
  List.filter (λ k, bool_decide (array_index k = None)) keys.

(** [registeredProjections]: the keys of the projections, then those of
    the read-model projections. *)
Definition registeredProjections {A B} (projections : PlainObject (A := A))
  (readModelProjections : PlainObject (A := B)) : list string :=
  Object_keys projections ++ Object_keys readModelProjections.

Section Repositories.
(** The aggregate constructors, the keys of the [Map] of repositories. *)
Context {Aggregate : Type} `{Countable Aggregate}.

(** What [new AggregateRepository({eventStore, streamName, aggregate})] is
    given, the store apart. *)
Record Repository := {
  rp_streamName : string;
  rp_aggregate : Aggregate
}.

Definition createRepository (streamName : string) (aggregate : Aggregate)
  (repositories : gmap Aggregate Repository)
  : gmap Aggregate Repository * Repository :=
  let repository := {| rp_streamName := streamName; rp_aggregate := aggregate |} in
  (<[aggregate := repository]> repositories, repository).

(** The error thrown is a plain [Error] with this message. *)
Definition getRepository (aggregate : Aggregate)
  (repositories : gmap Aggregate Repository) : Error + Repository :=
  match repositories !! aggregate with
  | Some repository => inr repository
  | None => inl (BackendError "No Repository for this Aggregate was created")
  end.
End Repositories.
End EventStore.

(** ** [InMemoryReadModelProjector] *)

Module Projector.

(** The fields of the object, together with the world it works in.  The
    handler slots are kept apart ([Handlers] below) because handlers act on
    this very state. *)
Record t (Store RM : Type) := {
  name : string;
  state : option IState;
  initHandler : option (unit → IState);
  metadataMatchers : gmap string IMetadataMatcher;
  streamPositions : gmap string JsNum;
  streamCreated : bool;
  isStopped : bool;
  query_all : bool;
  query_streams : list string;
  status : ProjectionStatus;
  world : World Store RM
}.

Arguments name {Store RM} _.
Arguments state {Store RM} _.
Arguments initHandler {Store RM} _.
Arguments metadataMatchers {Store RM} _.
Arguments streamPositions {Store RM} _.
Arguments streamCreated {Store RM} _.
Arguments isStopped {Store RM} _.
Arguments query_all {Store RM} _.
Arguments query_streams {Store RM} _.
Arguments status {Store RM} _.
Arguments world {Store RM} _.

(** A handler gets the state and the event and returns the next state; it
    may use the projector ([emit], [linkTo], [stop], ...) on the way. *)
Definition Handler (Store RM : Type) : Type :=
  option IState → IEvent → M (t Store RM) (option IState).

Record Handlers (Store RM : Type) := {
  handlers : option (gmap string (Handler Store RM));
  handler : option (Handler Store RM)
}.

Arguments handlers {Store RM} _.
Arguments handler {Store RM} _.

Section Fields.
Context {Store RM : Type}.
Abbreviation P := (t Store RM).

Definition set_state (v : option IState) (p : P) : P :=
  {| name := name p; state := v; initHandler := initHandler p;
     metadataMatchers := metadataMatchers p;
     streamPositions := streamPositions p;
     streamCreated := streamCreated p; isStopped := isStopped p;
     query_all := query_all p; query_streams := query_streams p;
     status := status p; world := world p |}.

Definition set_initHandler (v : option (unit → IState)) (p : P) : P :=
  {| name := name p; state := state p; initHandler := v;
     metadataMatchers := metadataMatchers p;
     streamPositions := streamPositions p;
     streamCreated := streamCreated p; isStopped := isStopped p;
     query_all := query_all p; query_streams := query_streams p;
     status := status p; world := world p |}.

Definition set_metadataMatchers (v : gmap string IMetadataMatcher) (p : P) : P :=
  {| name := name p; state := state p; initHandler := initHandler p;
     metadataMatchers := v; streamPositions := streamPositions p;
     streamCreated := streamCreated p; isStopped := isStopped p;
     query_all := query_all p; query_streams := query_streams p;
     status := status p; world := world p |}.

Definition set_streamPositions (v : gmap string JsNum) (p : P) : P :=
  {| name := name p; state := state p; initHandler := initHandler p;
     metadataMatchers := metadataMatchers p; streamPositions := v;
     streamCreated := streamCreated p; isStopped := isStopped p;
     query_all := query_all p; query_streams := query_streams p;
     status := status p; world := world p |}.

Definition set_streamCreated (v : bool) (p : P) : P :=
  {| name := name p; state := state p; initHandler := initHandler p;
     metadataMatchers := metadataMatchers p;
     streamPositions := streamPositions p; streamCreated := v;
     isStopped := isStopped p; query_all := query_all p;
     query_streams := query_streams p; status := status p;
     world := world p |}.

Definition set_isStopped (v : bool) (p : P) : P :=
  {| name := name p; state := state p; initHandler := initHandler p;
     metadataMatchers := metadataMatchers p;
     streamPositions := streamPositions p;
     streamCreated := streamCreated p; isStopped := v;
     query_all := query_all p; query_streams := query_streams p;
     status := status p; world := world p |}.

Definition set_query_all (v : bool) (p : P) : P :=
  {| name := name p; state := state p; initHandler := initHandler p;
     metadataMatchers := metadataMatchers p;
     streamPositions := streamPositions p;
     streamCreated := streamCreated p; isStopped := isStopped p;
     query_all := v; query_streams := query_streams p;
     status := status p; world := world p |}.

Definition set_query_streams (v : list string) (p : P) : P :=
  {| name := name p; state := state p; initHandler := initHandler p;
     metadataMatchers := metadataMatchers p;
     streamPositions := streamPositions p;
     streamCreated := streamCreated p; isStopped := isStopped p;
     query_all := query_all p; query_streams := v;
     status := status p; world := world p |}.

Definition set_status (v : ProjectionStatus) (p : P) : P :=
  {| name := name p; state := state p; initHandler := initHandler p;
     metadataMatchers := metadataMatchers p;
     streamPositions := streamPositions p;
     streamCreated := streamCreated p; isStopped := isStopped p;
     query_all := query_all p; query_streams := query_streams p;
     status := v; world := world p |}.

Definition set_world (v : World Store RM) (p : P) : P :=
  {| name := name p; state := state p; initHandler := initHandler p;
     metadataMatchers := metadataMatchers p;
     streamPositions := streamPositions p;
     streamCreated := streamCreated p; isStopped := isStopped p;
     query_all := query_all p; query_streams := query_streams p;
     status := status p; world := v |}.

(** A computation on the world, run from inside the projector. *)
Definition in_world {A} (c : M (World Store RM) A) : M P A :=
  zoom world set_world c.

(** The object after its constructor, with the field initialisers of the
    class. *)
Definition constructor (name : string) (w : World Store RM) : P :=
  {| name := name; state := None; initHandler := None;
     metadataMatchers := ∅; streamPositions := ∅;
     streamCreated := false; isStopped := false;
     query_all := false; query_streams := [];
     status := IDLE; world := w |}.

Definition no_handlers : Handlers Store RM :=
  {| handlers := None; handler := None |}.
End Fields.

Section Methods.
Context {Store RM : Type}.
Context `{!PersistenceStrategy Store} `{!ReadModel RM} `{!ProjectionManager}.

(** The middleware of the event store the projector was given. *)
Variable middleware : MiddlewareCollection.

(** Modelled from the spec: the class [InMemoryEventStore] is not among
    the sources.  The projector reads its [eventStreams] object, whose
    keys are the streams currently registered (§4.5, step 6);
    [eventStreams] gives these keys. *)
Variable eventStreams : Store → list string.

Abbreviation P := (t Store RM).

(** *** Build phase *)

Definition init (callback : unit → IState) : M P unit :=
  let* h := gets initHandler in
  match h with
  | Some _ => throw (ProjectorException alreadyInitialized)
  | None =>
      modify (set_initHandler (Some callback)) >>
      modify (set_state (Some (callback tt)))
  end.

(** [this.query.all || this.query.streams.length > 0] *)
Definition from_guard (p : P) : bool :=
  query_all p || bool_decide (0 < length (query_streams p))%nat.

Definition fromAll : M P unit :=
  let* called := gets from_guard in
  if called : bool then throw (ProjectorException fromWasAlreadyCalled)
  else modify (set_query_all true).

Definition fromStream (stream : IStream) : M P unit :=
  let* called := gets from_guard in
  if called : bool then throw (ProjectorException fromWasAlreadyCalled)
  else
    modify (λ p, set_query_streams (query_streams p ++ [streamName stream]) p) >>
    modify (λ p, set_metadataMatchers
                   (<[streamName stream := matcher stream]> (metadataMatchers p)) p).

Definition fromStreams (streams : list IStream) : M P unit :=
  let* called := gets from_guard in
  if called : bool then throw (ProjectorException fromWasAlreadyCalled)
  else
    modify (set_query_streams (map streamName streams)) >>
    modify (set_metadataMatchers
              (fold_left (λ matchers stream,
                            <[streamName stream := matcher stream]> matchers)
                         streams ∅)).

Definition when (hs : gmap string (Handler Store RM)) (slots : Handlers Store RM)
  : Error + Handlers Store RM :=
  match handler slots, handlers slots with
  | None, None => inr {| handlers := Some hs; handler := None |}
  | _, _ => inl (ProjectorException whenWasAlreadyCalled)
  end.

Definition whenAny (h : Handler Store RM) (slots : Handlers Store RM)
  : Error + Handlers Store RM :=
  match handler slots, handlers slots with
  | None, None => inr {| handlers := None; handler := Some h |}
  | _, _ => inl (ProjectorException whenWasAlreadyCalled)
  end.

(** *** Emitting *)

(** The call of [appendTo] on the last line is not awaited: [emit] goes on,
    and returns, with the append pending. *)
Definition emit (event : IEvent) : M P unit :=
  let* created := gets streamCreated in
  let* name := gets name in
  (if created : bool then ret tt
   else
     let* exists_ := in_world (EventStore.hasStream name) in
     if exists_ : bool then ret tt
     else
       in_world (EventStore.createStream name) >>
       modify (set_streamCreated true)) >>
  in_world (spawn [AppendTask name [event]]).

Definition linkTo (streamName : string) (event : IEvent) : M P unit :=
  let* exists_ := in_world (EventStore.hasStream streamName) in
  (if exists_ : bool then ret tt
   else in_world (EventStore.createStream streamName)) >>
  in_world (EventStore.appendTo middleware streamName [event]).

(** *** Control *)

(** [this.state = undefined; if (this.initHandler !== undefined)
    this.state = this.initHandler()] *)
Definition reinit : M P unit :=
  modify (set_state None) >>
  let* h := gets initHandler in
  match h with
  | Some f => modify (set_state (Some (f tt)))
  | None => ret tt
  end.

Definition delete (deleteProjection : bool) : M P unit :=
  let* name := gets name in
  in_world (delete_projection name) >>
  modify (set_isStopped true) >>
  reinit >>
  (if deleteProjection then in_world (on_readModel readModel_delete_call rm_delete)
   else ret tt) >>
  modify (set_streamPositions ∅).

(** The default of the parameter of [delete]. *)
Definition delete_default : bool := true.

(** The row written by [reset] holds the positions object of the
    projector itself, here its value: [run] replaces the projector's
    object ([prepareStreamPosition]) before it handles another event. *)
Definition reset : M P unit :=
  modify (set_streamPositions ∅) >>
  in_world (on_readModel readModel_reset_call rm_reset) >>
  reinit >>
  let* name := gets name in
  let* positions := gets streamPositions in
  in_world (write_projection name
              {| pr_state := ∅; pr_positions := positions;
                 pr_status := Some IDLE |}) >>
  in_world (EventStore.deleteStream name).

(** The row written holds the positions object of the projector, here its
    value, as in [reset]. *)
Definition persist : M P unit :=
  in_world (on_readModel readModel_persist_call rm_persist) >>
  let* name := gets name in
  let* state := gets state in
  let* positions := gets streamPositions in
  let* table := in_world (gets projections) in
  in_world (write_projection name
              {| pr_state := default ∅ state; pr_positions := positions;
                 pr_status := table !! name ≫= pr_status |}).

Definition stop : M P unit :=
  persist >>
  modify (set_isStopped true) >>
  let* name := gets name in
  in_world (on_manager (idleProjection_call name) (mg_idleProjection name)) >>
  modify (set_status IDLE).

Definition load : M P unit :=
  let* name := gets name in
  let* table := in_world (gets projections) in
  match table !! name with
  | None => throw (ProjectionNotFound name)
  | Some result =>
      modify (λ p, set_streamPositions
                     (js_spread (streamPositions p) (pr_positions result)) p) >>
      modify (set_state (Some (pr_state result)))
  end.

Definition zero_positions (streams : list string) : gmap string JsNum :=
  fold_left (λ acc stream, <[stream := Num 0]> acc) streams ∅.

Definition prepareStreamPosition : M P unit :=
  modify (λ p,
    let streamPositions0 : gmap string JsNum := ∅ in
    let streamPositions1 :=
      if query_all p then zero_positions (eventStreams (store (world p)))
      else streamPositions0 in
    let streamPositions2 :=
      if bool_decide (0 < length (query_streams p))%nat
      then zero_positions (query_streams p)
      else streamPositions1 in
    set_streamPositions (js_spread streamPositions2 (streamPositions p)) p).

Definition fetchRemoteStatus : M P (option ProjectionStatus) :=
  let* name := gets name in
  try_catch
    (in_world (on_manager (fetchProjectionStatus_call name)
                 (mg_fetchProjectionStatus name)))
    (λ _, ret (Some RUNNING)).

Definition startAgain : M P unit :=
  modify (set_isStopped false) >>
  let* name := gets name in
  let* table := in_world (gets projections) in
  match table !! name with
  | None => throw (ProjectionNotFound name)
  | Some record =>
      in_world (write_projection name
                  {| pr_state := pr_state record;
                     pr_positions := pr_positions record;
                     pr_status := Some RUNNING |}) >>
      modify (set_status RUNNING)
  end.

Definition projectionExists : M P bool :=
  let* name := gets name in
  let* table := in_world (gets projections) in
  ret (bool_decide (is_Some (table !! name))).

Definition createProjection : M P unit :=
  let* name := gets name in
  in_world (write_projection name
              {| pr_state := ∅; pr_positions := ∅; pr_status := Some IDLE |}).

(** *** The fold *)

(** [this.streamPositions[event.metadata.stream]++] *)
Definition advance (event : IEvent) : M P unit :=
  modify (λ p, set_streamPositions
                 (js_incr (streamPositions p)
                          (js_key (ev_metadata event !! "stream"))) p).

(** [this.state = cloneDeep(await h(this.state, event))]; the call is
    logged. *)
Definition apply_handler (h : Handler Store RM) (event : IEvent) : M P unit :=
  let* state := gets state in
  in_world (log (handler_call event)) >>
  let* state' := h state event in
  modify (set_state state').

Fixpoint handleStreamWithSingleHandler (h : Handler Store RM)
  (eventStreams : list IEvent) : M P unit :=
  match eventStreams with
  | [] => ret tt
  | event :: rest =>
      advance event >>
      apply_handler h event >>
      let* stopped := gets isStopped in
      if stopped : bool then ret tt
      else handleStreamWithSingleHandler h rest
  end.

(** The handler of an event is looked up among the handlers given to
    [when].  The object read by the source also inherits the names of
    [object_prototype]; an event so named, without a handler of its own,
    is outside this definition, and the properties of the fold exclude
    it. *)
Fixpoint handleStreamWithHandlers (hs : gmap string (Handler Store RM))
  (eventStreams : list IEvent) : M P unit :=
  match eventStreams with
  | [] => ret tt
  | event :: rest =>
      advance event >>
      match hs !! ev_name event with
      | None =>
          let* stopped := gets isStopped in
          if stopped : bool then ret tt
          else handleStreamWithHandlers hs rest
      | Some h =>
          apply_handler h event >>
          let* stopped := gets isStopped in
          if stopped : bool then ret tt
          else handleStreamWithHandlers hs rest
      end
  end.

(** *** [run] *)

(** The argument of [mergeAndLoad]: one entry for each stream position.
    The entries come in the order of the map; the source has them in the
    order in which the positions were created, which a merge uses to
    break ties between events of equal time and number. *)
Definition load_parameters (p : P) : list LoadStreamParameter :=
  map (λ '(streamName, position),
         {| lsp_streamName := streamName;
            lsp_fromNumber := Some (js_succ position);
            lsp_count := None;
            lsp_matcher := metadataMatchers p !! streamName |})
      (map_to_list (streamPositions p)).

(** The [switch] before the loop. *)
Definition react_before (keepRunning : bool) (s : option ProjectionStatus) : M P unit :=
  match s with
  | Some STOPPING => load >> stop
  | Some DELETING => delete delete_default
  | Some DELETING_INCL_EMITTED_EVENTS => delete true
  | Some RESETTING => reset >> if keepRunning then startAgain else ret tt
  | _ => ret tt
  end.

(** The [switch] inside the loop. *)
Definition react_inside (keepRunning : bool) (s : option ProjectionStatus) : M P unit :=
  match s with
  | Some STOPPING => stop
  | Some DELETING => delete delete_default
  | Some DELETING_INCL_EMITTED_EVENTS => delete true
  | Some RESETTING => reset >> if keepRunning then startAgain else ret tt
  | _ => ret tt
  end.

(** One pass through the body of the [do ... while]. *)
Definition iteration (slots : Handlers Store RM) (keepRunning : bool) : M P unit :=
  let* parameters := gets load_parameters in
  let* evenStream := in_world (EventStore.mergeAndLoad middleware parameters) in
  match handler slots with
  | Some h => handleStreamWithSingleHandler h evenStream
  | None =>
      match handlers slots with
      | Some hs => handleStreamWithHandlers hs evenStream
      | None => ret tt
      end
  end >>
  let* s := fetchRemoteStatus in
  react_inside keepRunning s >>
  prepareStreamPosition.

(** The loop, with a bound on the number of passes: the result is [true]
    when the loop was left, [false] when the bound was reached first. *)
Fixpoint loop (fuel : nat) (slots : Handlers Store RM) (keepRunning : bool)
  : M P bool :=
  match fuel with
  | O => ret false
  | S fuel' =>
      iteration slots keepRunning >>
      let* stopped := gets isStopped in
      if keepRunning && negb stopped then loop fuel' slots keepRunning
      else ret true
  end.

Definition run (fuel : nat) (slots : Handlers Store RM) (keepRunning : bool)
  : M P bool :=
  match handler slots, handlers slots with
  | None, None => throw (ProjectorException noHandler)
  | _, _ =>
      let* state := gets state in
      match state with
      | None => throw (ProjectorException stateWasNotInitialised)
      | Some _ =>
          let* s := fetchRemoteStatus in
          react_before keepRunning s >>
          let* exists_ := projectionExists in
          (if exists_ : bool then ret tt else createProjection) >>
          let* initialized :=
            in_world (on_readModel readModel_isInitialized_call rm_isInitialized) in
          (if initialized : bool then ret tt
           else in_world (on_readModel readModel_init_call rm_init)) >>
          prepareStreamPosition >>
          load >>
          modify (set_isStopped false) >>
          loop fuel slots keepRunning
      end
  end.

(** *** Accessors *)

Definition getName : M P string := gets name.

Definition getState : M P (option IState) := gets state.

End Methods.
End Projector.

(** ** An in-memory back-end

    The concrete back-ends are outside the engine.  The definitions of this
    part give one of each, to run the engine on. *)

Module InMemory.

(** Modelled from the spec: the persistence strategy of the in-memory store
    is not among the sources.  It follows the contract of §4.2: a streams
    table and one storage per stream; [addStreamToStreamsTable] fails with
    [StreamAlreadyExists] on a duplicate; [appendTo] is atomic, numbers the
    events contiguously from [max(no) + 1] and fails with
    [ConcurrencyError] on a duplicate of (aggregate id, version);
    [mergeAndLoad] merges the filtered streams by [(createdAt, no)],
    stable in the order of its arguments, and tags every event with its
    stream. *)
Record Store := {
  streamsTable : list string;
  schemas : gmap string (list IEvent)
}.

(** Modelled from the spec: the comparison of a clause of a matcher (§4.1).
    Numbers compare by their order, strings lexicographically, booleans
    only by [=] and [!=]; [in] and [nin] need an array; [regex] needs a
    string on both sides. *)
Definition compare_values (regex : string → string → bool)
  (op : MetadataOperator) (field : JsVal) (operand : MatchValue) : bool :=
  match op, operand with
  | EQUALS, Scalar v => bool_decide (field = v)
  | NOT_EQUALS, Scalar v => bool_decide (field ≠ v)
  | IN, Array vs => bool_decide (field ∈ vs)
  | NOT_IN, Array vs => bool_decide (field ∉ vs)
  | REGEX, Scalar (VStr pattern) =>
      match field with VStr s => regex pattern s | _ => false end
  | GREATER_THAN, Scalar (VNum v) =>
      match field with VNum x => bool_decide (v < x) | _ => false end
  | GREATER_THAN_EQUALS, Scalar (VNum v) =>
      match field with VNum x => bool_decide (v ≤ x) | _ => false end
  | LOWER_THAN, Scalar (VNum v) =>
      match field with VNum x => bool_decide (x < v) | _ => false end
  | LOWER_THAN_EQUALS, Scalar (VNum v) =>
      match field with VNum x => bool_decide (x ≤ v) | _ => false end
  | GREATER_THAN, Scalar (VStr v) =>
      match field with VStr x => String.ltb v x | _ => false end
  | GREATER_THAN_EQUALS, Scalar (VStr v) =>
      match field with VStr x => String.leb v x | _ => false end
  | LOWER_THAN, Scalar (VStr v) =>
      match field with VStr x => String.ltb x v | _ => false end
  | LOWER_THAN_EQUALS, Scalar (VStr v) =>
      match field with VStr x => String.leb x v | _ => false end
  | _, _ => false
  end.

(** Modelled from the spec: a matcher is the conjunction of its clauses,
    and a clause on a missing field is false (§4.1). *)
Definition matches (regex : string → string → bool)
  (m : option IMetadataMatcher) (e : IEvent) : bool :=
  match m with
  | None => true
  | Some m =>
      forallb
        (λ clause,
           let fields :=
             match mm_fieldType clause with
             | METADATA => ev_metadata e
             | MESSAGE_PROPERTY => ev_payload e
             end in
           match fields !! mm_field clause with
           | Some v => compare_values regex (mm_operation clause) v (mm_value clause)
           | None => false
           end)
        (mm_data m)
  end.

Definition max_no (events : list IEvent) : Z :=
  fold_left (λ acc e, Z.max acc (ev_no e)) events 0.

Fixpoint number_from (n : Z) (events : list IEvent) : list IEvent :=
  match events with
  | [] => []
  | e :: rest => withNo n e :: number_from (n + 1) rest
  end.

(** The pair (aggregate id, version) of an event. *)
Definition version_key (e : IEvent) : option JsVal * option JsVal :=
  (ev_metadata e !! "_aggregate_id", ev_metadata e !! "_aggregate_version").

Definition version_clash (existing : list IEvent) (e : IEvent) : bool :=
  bool_decide (is_Some (ev_metadata e !! "_aggregate_version")) &&
  bool_decide (version_key e ∈ map version_key existing).

(** [lower e1 e2]: [e1] comes strictly before [e2] in [(createdAt, no)]. *)
Definition lower (e1 e2 : IEvent) : bool :=
  bool_decide (ev_createdAt e1 < ev_createdAt e2) ||
  (bool_decide (ev_createdAt e1 = ev_createdAt e2) &&
   bool_decide (ev_no e1 < ev_no e2)).

(** Stable insertion: [e] goes after the events that are not above it. *)
Fixpoint insert_event (e : IEvent) (sorted : list IEvent) : list IEvent :=
  match sorted with
  | [] => [e]
  | x :: rest => if lower e x then e :: x :: rest else x :: insert_event e rest
  end.

Definition sort_events (events : list IEvent) : list IEvent :=
  fold_left (λ sorted e, insert_event e sorted) events [].

Definition from_number (from : option JsNum) (e : IEvent) : bool :=
  match from with
  | Some (Num n) => bool_decide (n ≤ ev_no e)
  | Some NaN => false
  | None => true
  end.

Definition load_stream (regex : string → string → bool) (s : Store)
  (parameter : LoadStreamParameter) : list IEvent :=
  let events := default [] (schemas s !! lsp_streamName parameter) in
  let selected :=
    List.filter (λ e, from_number (lsp_fromNumber parameter) e &&
                      matches regex (lsp_matcher parameter) e) events in
  let counted :=
    match lsp_count parameter with
    | Some c => take (Z.to_nat c) selected
    | None => selected
    end in
  map (λ e, withMetadata (<["stream" := VStr (lsp_streamName parameter)]>
                            (ev_metadata e)) e) counted.

Definition strategy (regex : string → string → bool) : PersistenceStrategy Store :=
  {| ps_addStreamToStreamsTable := λ streamName s,
       if bool_decide (streamName ∈ streamsTable s)
       then (s, inl (StreamAlreadyExists streamName))
       else ({| streamsTable := streamsTable s ++ [streamName];
                schemas := schemas s |}, inr tt);
     ps_removeStreamFromStreamsTable := λ streamName s,
       if bool_decide (streamName ∈ streamsTable s)
       then ({| streamsTable := List.filter (λ x, bool_decide (x ≠ streamName))
                                  (streamsTable s);
                schemas := schemas s |}, inr tt)
       else (s, inl (StreamNotFound streamName));
     ps_deleteStream := λ streamName s,
       if bool_decide (streamName ∈ streamsTable s)
       then ({| streamsTable := List.filter (λ x, bool_decide (x ≠ streamName))
                                  (streamsTable s);
                schemas := delete streamName (schemas s) |}, inr tt)
       else (s, inl (StreamNotFound streamName));
     ps_createSchema := λ streamName s,
       match schemas s !! streamName with
       | Some _ => (s, inr tt)
       | None => ({| streamsTable := streamsTable s;
                     schemas := <[streamName := []]> (schemas s) |}, inr tt)
       end;
     ps_dropSchema := λ streamName s,
       ({| streamsTable := streamsTable s;
           schemas := delete streamName (schemas s) |}, inr tt);
     ps_appendTo := λ streamName events s,
       match schemas s !! streamName with
       | None => (s, inl (StreamNotFound streamName))
       | Some existing =>
           if existsb (version_clash existing) events
           then (s, inl ConcurrencyError)
           else ({| streamsTable := streamsTable s;
                    schemas := <[streamName :=
                                   existing ++ number_from (max_no existing + 1) events]>
                                 (schemas s) |}, inr tt)
       end;
     ps_mergeAndLoad := λ streams s,
       (s, inr (sort_events (concat (map (load_stream regex s) streams))));
     ps_hasStream := λ streamName s,
       (s, inr (bool_decide (streamName ∈ streamsTable s))) |}.

(** The streams currently registered. *)
Definition eventStreams (s : Store) : list string := streamsTable s.

(** A strategy with injected failures: a call listed in [faults] throws
    and leaves the back-end as it is; any other call goes to the in-memory
    strategy. *)
Record Faulty := {
  inner : Store;
  faults : Call → option Error
}.

Definition guarded {A} (c : Call) (op : M Store A) : M Faulty A :=
  λ f, match faults f c with
       | Some e => (f, inl e)
       | None =>
           let '(s, r) := op (inner f) in
           ({| inner := s; faults := faults f |}, r)
       end.

Definition faulty_strategy (regex : string → string → bool)
  : PersistenceStrategy Faulty :=
  let S := strategy regex in
  {| ps_addStreamToStreamsTable := λ n,
       guarded (addStreamToStreamsTable_call n) (ps_addStreamToStreamsTable n);
     ps_removeStreamFromStreamsTable := λ n,
       guarded (removeStreamFromStreamsTable_call n)
               (ps_removeStreamFromStreamsTable n);
     ps_deleteStream := λ n, guarded (deleteStream_call n) (ps_deleteStream n);
     ps_createSchema := λ n, guarded (createSchema_call n) (ps_createSchema n);
     ps_dropSchema := λ n, guarded (dropSchema_call n) (ps_dropSchema n);
     ps_appendTo := λ n es, guarded (appendTo_call n es) (ps_appendTo n es);
     ps_mergeAndLoad := λ ps, guarded (mergeAndLoad_call ps) (ps_mergeAndLoad ps);
     ps_hasStream := λ n, guarded (hasStream_call n) (ps_hasStream n) |}.

(** Modelled from the spec: a read model (§3, §6) reduced to what the
    projector drives: whether it is initialised, the operations stacked by
    handlers, and the operations applied by [persist]. *)
Record Model := {
  initialized : bool;
  stacked : list string;
  applied : list string
}.

Definition readModel : ReadModel Model :=
  {| rm_init := λ m,
       ({| initialized := true; stacked := stacked m; applied := applied m |},
        inr tt);
     rm_isInitialized := λ m, (m, inr (initialized m));
     rm_persist := λ m,
       ({| initialized := initialized m; stacked := [];
           applied := applied m ++ stacked m |}, inr tt);
     rm_delete := λ m,
       ({| initialized := false; stacked := []; applied := [] |}, inr tt);
     rm_reset := λ m,
       ({| initialized := initialized m; stacked := []; applied := [] |},
        inr tt) |}.

(** Modelled from the spec: the projection manager (§4.6).
    [fetchProjectionStatus] returns the status of the row,
    [idleProjection] sets it to [IDLE]; both fail without a row. *)
Definition manager : ProjectionManager :=
  {| mg_fetchProjectionStatus := λ name table,
       match table !! name with
       | Some record => (table, inr (pr_status record))
       | None => (table, inl (ProjectionNotFound name))
       end;
     mg_idleProjection := λ name table,
       match table !! name with
       | Some record =>
           (<[name := {| pr_state := pr_state record;
                         pr_positions := pr_positions record;
                         pr_status := Some IDLE |}]> table, inr tt)
       | None => (table, inl (ProjectionNotFound name))
       end |}.

End InMemory.

(** ** Scenarios *)

Module Scenario.

(** The scenarios use no [regex] clause. *)
Definition no_regex : string → string → bool := λ _ _, false.

#[export] Instance mem_strategy : PersistenceStrategy InMemory.Store :=
  InMemory.strategy no_regex.
#[export] Instance faulty_strategy : PersistenceStrategy InMemory.Faulty :=
  InMemory.faulty_strategy no_regex.
#[export] Instance mem_readModel : ReadModel InMemory.Model := InMemory.readModel.
#[export] Instance mem_manager : ProjectionManager := InMemory.manager.

Abbreviation MemWorld := (World InMemory.Store InMemory.Model).
Abbreviation MemProjector := (Projector.t InMemory.Store InMemory.Model).

Definition fresh_model : InMemory.Model :=
  {| InMemory.initialized := false; InMemory.stacked := [];
     InMemory.applied := [] |}.

Definition world_of {Store} (s : Store) (table : gmap string ProjectionRecord)
  : World Store InMemory.Model :=
  {| store := s; readModel := fresh_model; projections := table;
     trace := []; pending := [] |}.

(** An event of the given name, kind and time, as a producer hands it to
    [appendTo]: the number is assigned by the store. *)
Definition event (name kind : string) (time : Z) : IEvent :=
  {| ev_no := 0; ev_uuid := name; ev_name := name; ev_payload := ∅;
     ev_metadata := {[ "kind" := VStr kind ]}; ev_createdAt := time |}.

(** The store after [createStream(stream)] and [appendTo(stream, events)]
    on an empty in-memory store. *)
Definition store_with (stream : string) (events : list IEvent) : InMemory.Store :=
  let empty : MemWorld :=
    world_of {| InMemory.streamsTable := []; InMemory.schemas := ∅ |} ∅ in
  store (fst ((EventStore.createStream stream >>
               EventStore.appendTo emptyMiddleware stream events) empty)).

(** The matcher [kind = "b"] on the metadata. *)
Definition kind_b : IMetadataMatcher :=
  {| mm_data := [ {| mm_field := "kind"; mm_value := Scalar (VStr "b");
                     mm_operation := EQUALS; mm_fieldType := METADATA |} ] |}.

Definition any_kind : IMetadataMatcher := {| mm_data := [] |}.

(** The handler [(state, event) => ({n: state.n + 1})]. *)
Definition count {Store RM} : Projector.Handler Store RM :=
  λ state _,
    ret (Some {[ "n" := match state ≫= (.!! "n") with
                        | Some (VNum n) => VNum (n + 1)
                        | _ => VNum 1
                        end ]}).

Definition zero : unit → IState := λ _, {[ "n" := VNum 0 ]}.

(** The events that were handed to a handler, oldest first. *)
Definition handled (calls : list Call) : list IEvent :=
  rev (omap (λ c, match c with handler_call e => Some e | _ => None end) calls).

(** A projector named ["count"] over the stream ["s"], after
    [init(zero)] and [fromStream({streamName: "s", matcher})]. *)
Definition counter (m : IMetadataMatcher) (w : MemWorld) : MemProjector :=
  fst ((Projector.init zero >>
        Projector.fromStream {| streamName := "s"; matcher := m |})
         (Projector.constructor "count" w)).

Definition single : Projector.Handlers InMemory.Store InMemory.Model :=
  {| Projector.handlers := None; Projector.handler := Some count |}.

Definition by_name : Projector.Handlers InMemory.Store InMemory.Model :=
  {| Projector.handlers := Some {[ "Inc" := count ]}; Projector.handler := None |}.

Definition run (slots : Projector.Handlers InMemory.Store InMemory.Model)
  (keepRunning : bool) : M MemProjector bool :=
  Projector.run emptyMiddleware InMemory.eventStreams 8 slots keepRunning.

(** The method behind a logged call. *)
Definition method (c : Call) : string :=
  match c with
  | addStreamToStreamsTable_call _ => "addStreamToStreamsTable"
  | removeStreamFromStreamsTable_call _ => "removeStreamFromStreamsTable"
  | deleteStream_call _ => "deleteStream"
  | createSchema_call _ => "createSchema"
  | dropSchema_call _ => "dropSchema"
  | appendTo_call _ _ => "appendTo"
  | mergeAndLoad_call _ => "mergeAndLoad"
  | hasStream_call _ => "hasStream"
  | readModel_init_call => "readModel.init"
  | readModel_isInitialized_call => "readModel.isInitialized"
  | readModel_persist_call => "readModel.persist"
  | readModel_delete_call => "readModel.delete"
  | readModel_reset_call => "readModel.reset"
  | fetchProjectionStatus_call _ => "fetchProjectionStatus"
  | idleProjection_call _ => "idleProjection"
  | projections_write _ _ => "projections.write"
  | projections_delete _ => "projections.delete"
  | console_warn _ => "console.warn"
  | handler_call _ => "handler"
  end.

(** The methods called, oldest first. *)
Definition methods (calls : list Call) : list string := rev (map method calls).

(** An empty store in which the methods of the listed calls throw. *)
Definition failing (faults : list (Call * Error)) : InMemory.Faulty :=
  {| InMemory.inner := {| InMemory.streamsTable := []; InMemory.schemas := ∅ |};
     InMemory.faults := λ c,
       snd <$> List.find (λ '(c', _),
                 String.eqb (method c) (method c')) faults |}.

(** An event with the reserved labels of an aggregate. *)
Definition versioned (id : string) (version : Z) : IEvent :=
  {| ev_no := 0; ev_uuid := id; ev_name := "Changed"; ev_payload := ∅;
     ev_metadata := {[ "_aggregate_id" := VStr id;
                       "_aggregate_version" := VNum version ]};
     ev_createdAt := version |}.

(** The middleware handler that sets a label of the metadata. *)
Definition label (key value : string) : EventCallback :=
  λ e _, inr (withMetadata (<[key := VStr value]> (ev_metadata e)) e).

(** The row of a projection that the manager was told to delete. *)
Definition deleting : ProjectionRecord :=
  {| pr_state := ∅; pr_positions := ∅; pr_status := Some DELETING |}.

(** The counting handler, during which the manager is told to put the
    projection ["count"] into the given status. *)
Definition requesting (s : ProjectionStatus)
  : Projector.Handlers InMemory.Store InMemory.Model :=
  {| Projector.handlers := None;
     Projector.handler := Some (λ state e,
       Projector.in_world
         (modify (λ w, set_projections
                         (alter (λ row, {| pr_state := pr_state row;
                                           pr_positions := pr_positions row;
                                           pr_status := Some s |})
                                "count" (projections w)) w)) >>
       count state e) |}.

Definition empty_store : InMemory.Store :=
  {| InMemory.streamsTable := []; InMemory.schemas := ∅ |}.

(** A read model that is out of reach: every call throws. *)
Definition offline : ReadModel unit :=
  {| rm_init := throw (BackendError "read model offline");
     rm_isInitialized := throw (BackendError "read model offline");
     rm_persist := throw (BackendError "read model offline");
     rm_delete := throw (BackendError "read model offline");
     rm_reset := throw (BackendError "read model offline") |}.

(** An event as [mergeAndLoad] yields it, tagged with its stream. *)
Definition loaded (stream name : string) (no : Z) : IEvent :=
  {| ev_no := no; ev_uuid := name; ev_name := name; ev_payload := ∅;
     ev_metadata := {[ "stream" := VStr stream ]}; ev_createdAt := no |}.

End Scenario.

(** ** Properties stated in the words of the specification *)

(** The handlers registered for an action, in the order of registration. *)
Definition registered (action : EventAction) (options : list EventMiddleWare)
  : list EventCallback :=
  map mw_handler (List.filter (λ m, bool_decide (mw_action m = action)) options).

(** The sequential fold of handlers over an event: each handler receives
    the result of the one before it, and the first failure ends the fold. *)
Fixpoint sequential_fold (action : EventAction) (handlers : list EventCallback)
  (event : IEvent) : Error + IEvent :=
  match handlers with
  | [] => inr event
  | h :: rest =>
      match h event action with
      | inr event' => sequential_fold action rest event'
      | inl err => inl err
      end
  end.

(** The projection row is a checkpoint of the projector: it holds the
    state and the positions the projector has in memory. *)
Definition checkpointed {Store RM} (p : Projector.t Store RM) : Prop :=
  ∃ row, projections (Projector.world p) !! Projector.name p = Some row ∧
         pr_state row = default ∅ (Projector.state p) ∧
         pr_positions row = Projector.streamPositions p.

(** The calls made since an earlier trace. *)
Definition since (earlier now : list Call) : list Call :=
  take (length now - length earlier)%nat now.

(** The streams [prepareStreamPosition] looks at: the declared ones when
    there are any, else all registered ones under [fromAll]. *)
Definition selected {Store RM} (eventStreams : Store → list string)
  (p : Projector.t Store RM) : list string :=
  if bool_decide (0 < length (Projector.query_streams p))%nat
  then Projector.query_streams p
  else if Projector.query_all p
       then eventStreams (store (Projector.world p))
       else [].

(** The positions after the events of a sequence were counted. *)
Definition counted (events : list IEvent) (positions : gmap string JsNum)
  : gmap string JsNum :=
  fold_left (λ o e, js_incr o (js_key (ev_metadata e !! "stream")))
            events positions.


(** The names of a list in the order of their first mention. *)
Fixpoint first_mentions (names : list string) : list string :=
  match names with
  | [] => []
  | n :: rest =>
      n :: List.filter (λ x, bool_decide (x ≠ n)) (first_mentions rest)
  end.

(** The names under which entries are registered as own properties. *)
Definition property_names {A} (entries : list (string * A)) : list string :=
  List.filter (λ n, bool_decide (n ≠ "__proto__")) entries.*1.

(** * Theorems *)

(** ** Numbers *)

(** Up to [2^53] adding one is exact. *)
Lemma to_double_exact (m : Z) : Z.abs m ≤ 2 ^ 53 → to_double m = m.
Proof.
  intros Hm. unfold to_double.
  destruct (Z.leb_spec (Z.abs m) (2 ^ 53)) as [_|Hgt]; [reflexivity|lia].
Qed.

(** At [2^53] adding one changes nothing, and one step further the sum
    lands on the next even double. *)
Example js_succ_beyond_safe_integers :
  js_succ (Num (2 ^ 53 - 1)) = Num (2 ^ 53) ∧
  js_succ (Num (2 ^ 53)) = Num (2 ^ 53) ∧
  js_succ (Num (2 ^ 53 + 2)) = Num (2 ^ 53 + 4) ∧
  js_succ (Num (- 2 ^ 53)) = Num (- 2 ^ 53 + 1).
Proof. vm_compute. repeat split; reflexivity. Qed.

(** ** The monad *)

Ltac run_monad :=
  cbv beta iota delta
    [bind ret throw try_catch gets modify zoom log spawn persistence
     on_readModel on_manager write_projection delete_projection
     Projector.in_world];
  simpl.

(** ** [EventStore] *)

Section EventStoreFacts.
Context {Store RM : Type} `{!PersistenceStrategy Store}.

Abbreviation W := (World Store RM).

Lemma bucket_push c a a' h :
  bucket (push c a' h) a =
  bucket c a ++ (if bool_decide (a' = a) then [h] else []).
Proof.
  destruct a, a'; simpl; rewrite ?app_nil_r; reflexivity.
Qed.

Lemma bucket_fold options : ∀ c a,
  bucket (fold_left (λ carry m, push carry (mw_action m) (mw_handler m))
                    options c) a =
  bucket c a ++ registered a options.
Proof.
  induction options as [|m options IH]; intros c a; simpl.
  - unfold registered. simpl. by rewrite app_nil_r.
  - rewrite IH, bucket_push. unfold registered. simpl.
    rewrite <- app_assoc. f_equal.
    destruct (bool_decide (mw_action m = a)); reflexivity.
Qed.

Lemma bucket_constructor a options :
  bucket (EventStore_constructor options) a = registered a options.
Proof.
  unfold EventStore_constructor. rewrite bucket_fold. by destruct a.
Qed.

Lemma chain_rejected action (handlers : list EventCallback) err :
  fold_left (λ acc (handler : EventCallback),
               match acc with
               | inr e => handler e action
               | inl err => inl err
               end) handlers (inl err : Error + IEvent) = inl err.
Proof. induction handlers; simpl; auto. Qed.

Lemma chain_sequential action handlers : ∀ event,
  chain action handlers event = sequential_fold action handlers event.
Proof.
  unfold chain. induction handlers as [|h rest IH]; intros event; simpl.
  - reflexivity.
  - destruct (h event action) as [err|event'].
    + apply chain_rejected.
    + apply IH.
Qed.

Lemma promise_all_fulfilled {A B} (f : A → Error + B) l : ∀ l',
  promise_all f l = inr l' → Forall2 (λ x y, f x = inr y) l l'.
Proof.
  induction l as [|x l IH]; simpl; intros l' Hl.
  - inversion Hl. constructor.
  - destruct (f x) as [e|y] eqn:Hx; [discriminate|].
    destruct (promise_all f l) as [e|ys]; [discriminate|].
    inversion Hl; subst. constructor; auto.
Qed.

Lemma promise_all_rejected {A B} (f : A → Error + B) l : ∀ err,
  promise_all f l = inl err → ∃ x, x ∈ l ∧ f x = inl err.
Proof.
  induction l as [|x l IH]; simpl; intros err Hl.
  - discriminate.
  - destruct (f x) as [e|y] eqn:Hx.
    + inversion Hl; subst. exists x. split; [left|done].
    + destruct (promise_all f l) as [e|ys]; [|discriminate].
      inversion Hl; subst. destruct (IH err eq_refl) as (x' & Hin & Hx').
      exists x'. split; [by right|done].
Qed.

Lemma promise_all_length {A B} (f : A → Error + B) l l' :
  promise_all f l = inr l' → length l' = length l.
Proof.
  intros Hl. apply promise_all_fulfilled in Hl.
  symmetry. eapply Forall2_length, Hl.
Qed.

(** C5 (as amended).  [createStream] has two phases with different error
    handling.  If the registration in the streams table throws, the
    error is logged, schema creation is not attempted and [createStream]
    returns normally.  If the schema creation throws, the registration is
    removed, and then: when the removal throws, its error is thrown and
    no schema drop is attempted; when the schema drop throws, its error is
    thrown; when both succeed, the error of the schema creation is thrown
    again. *)
Theorem createStream_two_phases (name : string) (w : W) :
  (∀ s1 e,
     ps_addStreamToStreamsTable name (store w) = (s1, inl e) →
     ∃ w', EventStore.createStream name w = (w', inr tt) ∧
           store w' = s1 ∧
           trace w' = console_warn e :: addStreamToStreamsTable_call name :: trace w) ∧
  (∀ s1 s2 e,
     ps_addStreamToStreamsTable name (store w) = (s1, inr tt) →
     ps_createSchema name s1 = (s2, inl e) →
     (∀ s3 e',
        ps_removeStreamFromStreamsTable name s2 = (s3, inl e') →
        ∃ w', EventStore.createStream name w = (w', inl e') ∧
              store w' = s3 ∧
              trace w' = removeStreamFromStreamsTable_call name ::
                         createSchema_call name ::
                         addStreamToStreamsTable_call name :: trace w) ∧
     (∀ s3 s4 e',
        ps_removeStreamFromStreamsTable name s2 = (s3, inr tt) →
        ps_dropSchema name s3 = (s4, inl e') →
        ∃ w', EventStore.createStream name w = (w', inl e') ∧
              store w' = s4 ∧
              trace w' = dropSchema_call name ::
                         removeStreamFromStreamsTable_call name ::
                         createSchema_call name ::
                         addStreamToStreamsTable_call name :: trace w) ∧
     (∀ s3 s4,
        ps_removeStreamFromStreamsTable name s2 = (s3, inr tt) →
        ps_dropSchema name s3 = (s4, inr tt) →
        ∃ w', EventStore.createStream name w = (w', inl e) ∧
              store w' = s4 ∧
              trace w' = dropSchema_call name ::
                         removeStreamFromStreamsTable_call name ::
                         createSchema_call name ::
                         addStreamToStreamsTable_call name :: trace w)).
Proof.
  split.
  - intros s1 e Hadd. unfold EventStore.createStream. run_monad.
    rewrite Hadd. simpl. eexists. split; [reflexivity|]. simpl. auto.
  - intros s1 s2 e Hadd Hschema. repeat split.
    + intros s3 e' Hremove. unfold EventStore.createStream. run_monad.
      rewrite Hadd. simpl. rewrite Hschema. simpl. rewrite Hremove. simpl.
      eexists. split; [reflexivity|]. simpl. auto.
    + intros s3 s4 e' Hremove Hdrop. unfold EventStore.createStream.
      run_monad.
      rewrite Hadd. simpl. rewrite Hschema. simpl. rewrite Hremove. simpl.
      rewrite Hdrop. simpl.
      eexists. split; [reflexivity|]. simpl. auto.
    + intros s3 s4 Hremove Hdrop. unfold EventStore.createStream.
      run_monad.
      rewrite Hadd. simpl. rewrite Hschema. simpl. rewrite Hremove. simpl.
      rewrite Hdrop. simpl.
      eexists. split; [reflexivity|]. simpl. auto.
Qed.

(** C6.  When the persistence strategy throws on the batch it is handed,
    the [APPEND_ERRORED] chain is started for every event of that batch
    and the error that was thrown is thrown again, the same value.  The
    chains are promises that are not awaited. *)
Theorem appendTo_persistence_failure (middleware : MiddlewareCollection)
  (name : string) (events handed : list IEvent) (w : W) (s' : Store)
  (e : Error) :
  events ≠ [] →
  promise_all (chain PRE_APPEND (bucket middleware PRE_APPEND)) events
    = inr handed →
  ps_appendTo name handed (store w) = (s', inl e) →
  ∃ w', EventStore.appendTo middleware name events w = (w', inl e) ∧
        pending w' =
          pending w ++
          map (MiddlewareTask APPEND_ERRORED (bucket middleware APPEND_ERRORED))
              handed ∧
        length handed = length events ∧
        trace w' = appendTo_call name handed :: trace w.
Proof.
  intros Hne Hpre Hthrow. unfold EventStore.appendTo.
  destruct events as [|e0 events]; [done|].
  pose proof (promise_all_length _ _ _ Hpre) as Hlen.
  rewrite Hpre. run_monad. rewrite Hthrow. simpl.
  eexists. split; [reflexivity|]. simpl.
  repeat split. exact Hlen.
Qed.

(** C7.  For a non-empty batch, the events handed to the persistence
    strategy are, one for one, the sequential folds of the registered
    [PRE_APPEND] handlers, in the order of registration, over the events
    of the caller.  When such a fold fails nothing is handed over. *)
Theorem appendTo_hands_over_the_folds (options : list EventMiddleWare)
  (name : string) (events : list IEvent) (w : W) :
  events ≠ [] →
  let '(w', r) :=
    EventStore.appendTo (EventStore_constructor options) name events w in
  (∃ handed,
     Forall2 (λ original e,
                sequential_fold PRE_APPEND (registered PRE_APPEND options)
                  original = inr e)
             events handed ∧
     since (trace w) (trace w') = [appendTo_call name handed]) ∨
  (∃ original err,
     original ∈ events ∧
     sequential_fold PRE_APPEND (registered PRE_APPEND options) original
       = inl err ∧
     r = inl err ∧ w' = w).
Proof.
  intros Hne. unfold EventStore.appendTo.
  destruct events as [|e0 events]; [done|].
  rewrite bucket_constructor.
  destruct (promise_all _ (e0 :: events)) as [err|handed] eqn:Hpre.
  - right. apply promise_all_rejected in Hpre as (x & Hin & Hx).
    rewrite chain_sequential in Hx. exists x, err. auto.
  - apply promise_all_fulfilled in Hpre.
    assert (Hfold : Forall2 (λ original e,
              sequential_fold PRE_APPEND (registered PRE_APPEND options)
                original = inr e) (e0 :: events) handed).
    { eapply Forall2_impl; [exact Hpre|].
      intros x y Hxy. by rewrite <- chain_sequential. }
    run_monad.
    destruct (ps_appendTo name handed (store w)) as [s' [err|[]]]; simpl;
      left; exists handed; (split; [exact Hfold|]);
      unfold since; simpl;
      replace (S (length (trace w)) - length (trace w))%nat with 1%nat by lia;
      reflexivity.
Qed.
End EventStoreFacts.

(** ** [EventStore] on the in-memory back-end *)

Section EventStoreScenarios.
Import Scenario.

(** The schema creation fails and both rollback calls succeed: the error
    of the schema creation comes back. *)
Lemma createStream_two_phases_witness :
  let w := world_of (failing [(createSchema_call "s", BackendError "disk full")]) ∅ in
  ∃ w', EventStore.createStream "s" w = (w', inl (BackendError "disk full")) ∧
        methods (trace w') =
          ["addStreamToStreamsTable"; "createSchema";
           "removeStreamFromStreamsTable"; "dropSchema"].
Proof.
  intros w.
  destruct (createStream_two_phases (Store := InMemory.Faulty)
              (RM := InMemory.Model) "s" w) as [_ H].
  edestruct H as (_ & _ & H3); [reflexivity | reflexivity |].
  edestruct H3 as (w' & Hrun & _ & Htrace); [reflexivity | reflexivity |].
  exists w'. split; [exact Hrun|]. rewrite Htrace. reflexivity.
Defined.

(** C5, as stated, fails when the schema drop of the rollback throws:
    the schema creation failed with one error, and [createStream] throws
    another. *)
Lemma createStream_rollback_error_wins :
  let w := world_of (failing [(createSchema_call "s", BackendError "disk full");
                              (dropSchema_call "s", BackendError "no such schema")]) ∅ in
  ∃ s1 s2,
    ps_addStreamToStreamsTable "s" (store w) = (s1, inr tt) ∧
    ps_createSchema "s" s1 = (s2, inl (BackendError "disk full")) ∧
    snd (EventStore.createStream "s" w) = inl (BackendError "no such schema") ∧
    snd (EventStore.createStream "s" w) ≠ inl (BackendError "disk full").
Proof.
  intros w. do 2 eexists.
  split; [reflexivity|]. split; [reflexivity|].
  split; [reflexivity|]. vm_compute. discriminate.
Qed.

(** A second event with the version of the first: the strategy throws
    [ConcurrencyError]. *)
Lemma appendTo_persistence_failure_witness :
  let mw := EventStore_constructor
              [ {| mw_action := PRE_APPEND; mw_handler := label "seen" "yes" |};
                {| mw_action := APPEND_ERRORED; mw_handler := label "failed" "yes" |} ] in
  let w : MemWorld := world_of (store_with "agg" [versioned "X" 5]) ∅ in
  ∃ w', EventStore.appendTo mw "agg" [versioned "X" 5] w = (w', inl ConcurrencyError) ∧
        pending w' =
          [MiddlewareTask APPEND_ERRORED (bucket mw APPEND_ERRORED)
             (withMetadata (<["seen" := VStr "yes"]> (ev_metadata (versioned "X" 5)))
                (versioned "X" 5))].
Proof.
  intros mw w.
  edestruct (appendTo_persistence_failure (Store := InMemory.Store)
               (RM := InMemory.Model) mw "agg"
               [versioned "X" 5]) with (w := w)
    as (w' & Hrun & Hpending & _ & _);
    [discriminate | reflexivity | reflexivity |].
  exists w'. split; [exact Hrun|]. exact Hpending.
Defined.

(** Two [PRE_APPEND] handlers around a [LOADED] one. *)
Lemma appendTo_hands_over_the_folds_witness :
  let options :=
    [ {| mw_action := PRE_APPEND; mw_handler := label "first" "1" |};
      {| mw_action := LOADED; mw_handler := label "loaded" "1" |};
      {| mw_action := PRE_APPEND; mw_handler := label "second" "2" |} ] in
  let w : MemWorld := world_of (store_with "s" []) ∅ in
  let '(w', r) :=
    EventStore.appendTo (EventStore_constructor options) "s" [event "A" "a" 1] w in
  (∃ handed,
     Forall2 (λ original e,
                sequential_fold PRE_APPEND (registered PRE_APPEND options)
                  original = inr e)
             [event "A" "a" 1] handed ∧
     since (trace w) (trace w') = [appendTo_call "s" handed]) ∨
  (∃ original err,
     original ∈ [event "A" "a" 1] ∧
     sequential_fold PRE_APPEND (registered PRE_APPEND options) original
       = inl err ∧
     r = inl err ∧ w' = w).
Proof.
  intros options w.
  apply (appendTo_hands_over_the_folds (Store := InMemory.Store)
           (RM := InMemory.Model) options "s"
           [event "A" "a" 1] w).
  discriminate.
Defined.
End EventStoreScenarios.

(** ** The projector *)

Section ProjectorFacts.
Context {Store RM : Type}.
Context `{!PersistenceStrategy Store} `{!ReadModel RM} `{!ProjectionManager}.

Abbreviation P := (Projector.t Store RM).

(** [reset] leaves the flag [streamCreated] as it is. *)
Lemma reset_keeps_streamCreated (p : P) :
  Projector.streamCreated (fst (Projector.reset p)) = Projector.streamCreated p.
Proof.
  unfold Projector.reset, Projector.reinit, EventStore.deleteStream.
  run_monad.
  destruct (rm_reset (readModel (Projector.world p))) as [rm' [e|[]]];
    simpl; [reflexivity|].
  destruct (Projector.initHandler p) as [f|]; simpl;
    destruct (ps_deleteStream _ _) as [s' [e|[]]]; reflexivity.
Qed.

(** After a [reset] whose read-model reset succeeds, the last call made is
    the deletion of the stream named after the projection. *)
Lemma reset_deletes_stream (p : P) rm' :
  rm_reset (readModel (Projector.world p)) = (rm', inr tt) →
  ∃ earlier,
    trace (Projector.world (fst (Projector.reset p))) =
      deleteStream_call (Projector.name p) :: earlier.
Proof.
  intros Hreset.
  unfold Projector.reset, Projector.reinit, EventStore.deleteStream.
  run_monad. rewrite Hreset. simpl.
  destruct (Projector.initHandler p) as [f|]; simpl;
    destruct (ps_deleteStream _ _) as [s' [e|[]]]; simpl; eauto.
Qed.

Lemma emit_when_created (p : P) (event : IEvent) :
  Projector.streamCreated p = true →
  Projector.emit event p =
    (Projector.set_world
       {| store := store (Projector.world p);
          readModel := readModel (Projector.world p);
          projections := projections (Projector.world p);
          trace := trace (Projector.world p);
          pending := pending (Projector.world p) ++
                     [AppendTask (Projector.name p) [event]] |} p,
     inr tt).
Proof.
  intros Hcreated. unfold Projector.emit. run_monad.
  rewrite Hcreated. simpl. destruct p; reflexivity.
Qed.

(** C10.  Once [streamCreated] is set, [emit] asks neither [hasStream] nor
    [createStream]: it makes no call at all, leaves the store as it is and
    starts the append to the stream named after the projection.  [reset]
    deletes that stream and keeps the flag, so an [emit] after a [reset]
    starts the append to the deleted stream without creating it again. *)
Theorem emit_skips_check_once_created (p : P) (event : IEvent) :
  Projector.streamCreated p = true →
  (∃ p', Projector.emit event p = (p', inr tt) ∧
         trace (Projector.world p') = trace (Projector.world p) ∧
         store (Projector.world p') = store (Projector.world p) ∧
         pending (Projector.world p') =
           pending (Projector.world p) ++
           [AppendTask (Projector.name p) [event]] ∧
         Projector.streamCreated p' = true) ∧
  (let q := fst (Projector.reset p) in
   Projector.streamCreated q = true ∧
   (∀ rm', rm_reset (readModel (Projector.world p)) = (rm', inr tt) →
           ∃ earlier, trace (Projector.world q) =
                        deleteStream_call (Projector.name p) :: earlier) ∧
   ∃ q', Projector.emit event q = (q', inr tt) ∧
         trace (Projector.world q') = trace (Projector.world q) ∧
         store (Projector.world q') = store (Projector.world q) ∧
         pending (Projector.world q') =
           pending (Projector.world q) ++
           [AppendTask (Projector.name q) [event]]).
Proof.
  intros Hcreated. split.
  - eexists. split; [by apply emit_when_created|]. simpl. auto.
  - simpl. split; [by rewrite reset_keeps_streamCreated|].
    split; [apply reset_deletes_stream|].
    eexists. split.
    + apply emit_when_created. by rewrite reset_keeps_streamCreated.
    + simpl. auto.
Qed.

(** C4 (as amended).  [delete(flag)] removes the projection row, sets
    [isStopped], sets the state to what the init handler returns (to
    [undefined] without one), deletes the read model exactly when the flag
    is set, and clears the positions when it returns.  It makes no call on
    the event store: the stream named after the projection stays. *)
Theorem delete_effects (flag : bool) (p : P) :
  let p' := fst (Projector.delete flag p) in
  projections (Projector.world p') =
    delete (Projector.name p) (projections (Projector.world p)) ∧
  Projector.isStopped p' = true ∧
  Projector.state p' = (λ f, f tt) <$> Projector.initHandler p ∧
  readModel (Projector.world p') =
    (if flag then fst (rm_delete (readModel (Projector.world p)))
     else readModel (Projector.world p)) ∧
  trace (Projector.world p') =
    (if flag then [readModel_delete_call] else []) ++
    projections_delete (Projector.name p) :: trace (Projector.world p) ∧
  store (Projector.world p') = store (Projector.world p) ∧
  pending (Projector.world p') = pending (Projector.world p) ∧
  (snd (Projector.delete flag p) = inr tt →
   Projector.streamPositions p' = ∅).
Proof.
  unfold Projector.delete, Projector.reinit. run_monad.
  destruct (Projector.initHandler p) as [f|], flag; simpl;
    try destruct (rm_delete _) as [rm' [e|[]]]; simpl;
    repeat split; auto; discriminate.
Qed.

Lemma persist_writes_row (p : P) rm' :
  rm_persist (readModel (Projector.world p)) = (rm', inr tt) →
  let row := {| pr_state := default ∅ (Projector.state p);
                pr_positions := Projector.streamPositions p;
                pr_status := projections (Projector.world p)
                               !! Projector.name p ≫= pr_status |} in
  Projector.persist p =
    (Projector.set_world
       {| store := store (Projector.world p);
          readModel := rm';
          projections := <[Projector.name p := row]>
                           (projections (Projector.world p));
          trace := projections_write (Projector.name p) row ::
                   readModel_persist_call :: trace (Projector.world p);
          pending := pending (Projector.world p) |} p,
     inr tt).
Proof.
  intros Hpersist. unfold Projector.persist. run_monad.
  rewrite Hpersist. simpl. reflexivity.
Qed.

Lemma stop_persists (p : P) rm' :
  rm_persist (readModel (Projector.world p)) = (rm', inr tt) →
  let p' := fst (Projector.stop p) in
  ∃ row,
    pr_state row = default ∅ (Projector.state p) ∧
    pr_positions row = Projector.streamPositions p ∧
    trace (Projector.world p') =
      idleProjection_call (Projector.name p) ::
      projections_write (Projector.name p) row ::
      readModel_persist_call :: trace (Projector.world p) ∧
    Projector.isStopped p' = true ∧
    Projector.state p' = Projector.state p ∧
    Projector.streamPositions p' = Projector.streamPositions p.
Proof.
  intros Hpersist. unfold Projector.stop. run_monad.
  rewrite (persist_writes_row p rm' Hpersist). simpl.
  destruct (mg_idleProjection _ _) as [table [e|[]]]; simpl;
    eexists; repeat split; reflexivity.
Qed.

Lemma load_reads_row (p : P) row :
  projections (Projector.world p) !! Projector.name p = Some row →
  Projector.load p =
    (Projector.set_state (Some (pr_state row))
       (Projector.set_streamPositions
          (js_spread (Projector.streamPositions p) (pr_positions row)) p),
     inr tt).
Proof.
  intros Hrow. unfold Projector.load. run_monad. rewrite Hrow. reflexivity.
Qed.

(** The one path of [run] that persists is its reaction to a [STOPPING]
    status.  When the read model persists, the projector calls
    [readModel.persist()] and after it writes the state and the positions
    it has in memory into the projection row; [isStopped] is set.  Before
    the loop the row is loaded first, so what is written is the state of
    the row and the positions in memory overlaid with those of the row. *)
Theorem run_persists_on_stopping (keepRunning : bool) (p : P) rm' :
  rm_persist (readModel (Projector.world p)) = (rm', inr tt) →
  (let p' := fst (Projector.react_inside keepRunning (Some STOPPING) p) in
   ∃ row,
     pr_state row = default ∅ (Projector.state p) ∧
     pr_positions row = Projector.streamPositions p ∧
     trace (Projector.world p') =
       idleProjection_call (Projector.name p) ::
       projections_write (Projector.name p) row ::
       readModel_persist_call :: trace (Projector.world p) ∧
     Projector.isStopped p' = true ∧
     Projector.state p' = Projector.state p ∧
     Projector.streamPositions p' = Projector.streamPositions p) ∧
  (∀ row0,
     projections (Projector.world p) !! Projector.name p = Some row0 →
     let p' := fst (Projector.react_before keepRunning (Some STOPPING) p) in
     ∃ row,
       pr_state row = pr_state row0 ∧
       pr_positions row =
         js_spread (Projector.streamPositions p) (pr_positions row0) ∧
       trace (Projector.world p') =
         idleProjection_call (Projector.name p) ::
         projections_write (Projector.name p) row ::
         readModel_persist_call :: trace (Projector.world p) ∧
       Projector.isStopped p' = true ∧
       Projector.state p' = Some (pr_state row) ∧
       Projector.streamPositions p' = pr_positions row).
Proof.
  intros Hpersist. split.
  - apply (stop_persists p rm' Hpersist).
  - intros row0 Hrow. simpl.
    set (p1 := Projector.set_state (Some (pr_state row0))
                 (Projector.set_streamPositions
                    (js_spread (Projector.streamPositions p)
                               (pr_positions row0)) p)).
    assert (Hseq : (Projector.load >> Projector.stop) p = Projector.stop p1).
    { unfold bind. by rewrite (load_reads_row p row0 Hrow). }
    rewrite Hseq.
    destruct (stop_persists p1 rm' Hpersist)
      as (row & Hstate & Hpos & Htrace & Hstopped & Hst & Hsp).
    exists row. rewrite Hst, Hsp, Hstate, Hpos. repeat split; auto.
Qed.

(** The position of the stream of an event goes up by one, whatever the
    number of the event, as long as the sum is an integer that a double
    holds exactly. *)
Lemma advance_adds_one (p : P) (event : IEvent) (n : Z) :
  Z.abs (n + 1) ≤ 2 ^ 53 →
  Projector.streamPositions p !! js_key (ev_metadata event !! "stream")
    = Some (Num n) →
  Projector.streamPositions (fst (Projector.advance event p))
    !! js_key (ev_metadata event !! "stream") = Some (Num (n + 1)).
Proof.
  intros Hsafe Hposition. unfold Projector.advance. run_monad.
  unfold js_incr. rewrite Hposition. unfold js_succ.
  rewrite (to_double_exact _ Hsafe). apply lookup_insert_eq.
Qed.

(** The position of an event whose stream has no position yet is [NaN]. *)
Lemma advance_unknown_stream (p : P) (event : IEvent) :
  Projector.streamPositions p !! js_key (ev_metadata event !! "stream") = None →
  Projector.streamPositions (fst (Projector.advance event p))
    !! js_key (ev_metadata event !! "stream") = Some NaN.
Proof.
  intros Hposition. unfold Projector.advance. run_monad.
  unfold js_incr. rewrite Hposition. apply lookup_insert_eq.
Qed.

(** [emit] never reaches [appendTo] of the persistence strategy: when it
    returns, the append is the last pending task and the calls it has made
    are those of [hasStream] and [createStream]. *)
Lemma emit_leaves_append_pending (p p' : P) (event : IEvent) :
  Projector.emit event p = (p', inr tt) →
  pending (Projector.world p') =
    pending (Projector.world p) ++ [AppendTask (Projector.name p) [event]] ∧
  ∀ stream events,
    appendTo_call stream events ∈ trace (Projector.world p') →
    appendTo_call stream events ∈ trace (Projector.world p).
Proof.
  unfold Projector.emit, EventStore.hasStream, EventStore.createStream.
  run_monad.
  destruct (Projector.streamCreated p); simpl.
  { intros Hemit. inversion Hemit; subst; clear Hemit. simpl. auto. }
  destruct (ps_hasStream _ _) as [s1 [e|[|]]]; simpl; [discriminate| |].
  { intros Hemit. inversion Hemit; subst; clear Hemit. simpl.
    split; [reflexivity|]. intros stream events Hin.
    apply elem_of_cons in Hin as [Hin|Hin]; [discriminate|done]. }
  destruct (ps_addStreamToStreamsTable _ _) as [s2 [e|[]]]; simpl.
  { intros Hemit. inversion Hemit; subst; clear Hemit. simpl.
    split; [reflexivity|]. intros stream events Hin.
    repeat (apply elem_of_cons in Hin as [Hin|Hin]; [discriminate|]). done. }
  destruct (ps_createSchema _ _) as [s3 [e|[]]]; simpl.
  { destruct (ps_removeStreamFromStreamsTable _ _) as [s4 [e4|[]]]; simpl;
      [discriminate|].
    destruct (ps_dropSchema _ _) as [s5 [e5|[]]]; simpl; discriminate. }
  intros Hemit. inversion Hemit; subst; clear Hemit. simpl.
  split; [reflexivity|]. intros stream events Hin.
  repeat (apply elem_of_cons in Hin as [Hin|Hin]; [discriminate|]). done.
Qed.

(** While the guard of the three [from] methods holds, each of them throws
    [FromAlreadyCalled] and changes nothing. *)
Lemma from_rejected_under_guard (p : P) stream streams :
  Projector.from_guard p = true →
  Projector.fromAll p = (p, inl (ProjectorException fromWasAlreadyCalled)) ∧
  Projector.fromStream stream p =
    (p, inl (ProjectorException fromWasAlreadyCalled)) ∧
  Projector.fromStreams streams p =
    (p, inl (ProjectorException fromWasAlreadyCalled)).
Proof.
  intros Hguard.
  unfold Projector.fromAll, Projector.fromStream, Projector.fromStreams.
  run_monad. rewrite Hguard. auto.
Qed.

(** The guard holds after [fromAll], after [fromStream], and after
    [fromStreams] with at least one stream. *)
Lemma from_guard_established (p : P) stream streams :
  Projector.from_guard p = false →
  Projector.from_guard (fst (Projector.fromAll p)) = true ∧
  Projector.from_guard (fst (Projector.fromStream stream p)) = true ∧
  (streams ≠ [] →
   Projector.from_guard (fst (Projector.fromStreams streams p)) = true).
Proof.
  intros Hguard.
  unfold Projector.fromAll, Projector.fromStream, Projector.fromStreams.
  run_monad. rewrite Hguard. simpl. unfold Projector.from_guard. simpl.
  repeat split.
  - rewrite bool_decide_true; [by rewrite orb_true_r|].
    rewrite length_app. simpl. lia.
  - intros Hne. destruct streams; [done|].
    rewrite bool_decide_true; [by rewrite orb_true_r|]. simpl. lia.
Qed.
End ProjectorFacts.

(** ** The projector on the in-memory back-end *)

Section ProjectorScenarios.
Import Scenario.

(** C1 at an input on which the code departs from it.  The stream ["s"]
    holds the events 1 and 2, the matcher lets only 2 through.  After the
    run the handler has seen event 2 and the position of ["s"] is 1, so the
    next run loads from 2 and hands the same event to the handler again.
    With a handler map the stream holds 1, 2 and 3, the matcher lets 2 and
    3 through, 3 has no handler, and the position ends at 2. *)
Lemma position_counts_events_not_numbers :
  let first :=
    fst (run single false
           (counter kind_b
              (world_of (store_with "s" [event "Inc" "a" 10; event "Inc" "b" 20]) ∅))) in
  let second := fst (run single false first) in
  let named :=
    fst (run by_name false
           (counter kind_b
              (world_of (store_with "s" [event "Inc" "a" 10; event "Inc" "b" 20;
                                         event "Other" "b" 30]) ∅))) in
  map ev_no (handled (trace (Projector.world first))) = [2] ∧
  Projector.streamPositions first !! "s" = Some (Num 1) ∧
  map ev_no (handled (trace (Projector.world second))) = [2; 2] ∧
  map ev_no (handled (trace (Projector.world named))) = [2] ∧
  Projector.streamPositions named !! "s" = Some (Num 2).
Proof. vm_compute. repeat split; reflexivity. Qed.

(** Where no event is filtered out the position is the number of the last
    event. *)
Example position_without_filter :
  let p :=
    fst (run single false
           (counter any_kind
              (world_of (store_with "s" [event "Inc" "a" 10; event "Inc" "b" 20]) ∅))) in
  map ev_no (handled (trace (Projector.world p))) = [1; 2] ∧
  Projector.streamPositions p !! "s" = Some (Num 2).
Proof. vm_compute. split; reflexivity. Qed.

(** A run that meets no [STOPPING] status returns normally and the
    projection row holds neither the state nor the positions of the
    projector. *)
Lemma run_returns_without_checkpoint :
  let result :=
    run single false
      (counter any_kind (world_of (store_with "s" [event "Inc" "a" 10]) ∅)) in
  snd result = inr true ∧
  Projector.streamPositions (fst result) !! "s" = Some (Num 1) ∧
  ("readModel.persist" ∉ methods (trace (Projector.world (fst result)))) ∧
  ¬ checkpointed (fst result).
Proof.
  intros result.
  split; [vm_compute; reflexivity|].
  split; [vm_compute; reflexivity|].
  split.
  - apply (bool_decide_unpack _). vm_compute. exact I.
  - intros (row & Hrow & _ & Hpos).
    vm_compute in Hrow. inversion Hrow; subst; clear Hrow.
    vm_compute in Hpos. discriminate.
Qed.

(** The read model of the scenarios persists without fail: the reaction
    to [STOPPING] inside the loop persists. *)
Lemma run_persists_on_stopping_witness :
  let p := counter any_kind (world_of (store_with "s" []) ∅) in
  let p' := fst (Projector.react_inside false (Some STOPPING) p) in
  ∃ row,
    pr_state row = default ∅ (Projector.state p) ∧
    pr_positions row = Projector.streamPositions p ∧
    trace (Projector.world p') =
      idleProjection_call (Projector.name p) ::
      projections_write (Projector.name p) row ::
      readModel_persist_call :: trace (Projector.world p) ∧
    Projector.isStopped p' = true ∧
    Projector.state p' = Projector.state p ∧
    Projector.streamPositions p' = Projector.streamPositions p.
Proof.
  intros p.
  exact (proj1 (run_persists_on_stopping false p _ eq_refl)).
Defined.

(** C2 at an input on which the code departs from it.  [run(false)] over
    a stream of two events meets no [STOPPING] status: it returns normally
    with state [{n: 2}] and position 2 in memory, has not called
    [readModel.persist()], and leaves the row as [createProjection] wrote
    it, with empty state and positions.  The next [run(false)] loads that
    row: the state in memory is replaced by the empty object while the
    positions stay, so the two events are neither kept in the state nor
    handled again. *)
Lemma run_without_checkpoint_loses_state :
  let first :=
    run single false
      (counter any_kind
         (world_of (store_with "s" [event "Inc" "a" 10; event "Inc" "b" 20]) ∅)) in
  let second := run single false (fst first) in
  snd first = inr true ∧
  Projector.state (fst first) = Some {[ "n" := VNum 2 ]} ∧
  Projector.streamPositions (fst first) !! "s" = Some (Num 2) ∧
  ("readModel.persist" ∉ methods (trace (Projector.world (fst first)))) ∧
  projections (Projector.world (fst first)) !! "count" =
    Some {| pr_state := ∅; pr_positions := ∅; pr_status := Some IDLE |} ∧
  ¬ checkpointed (fst first) ∧
  snd second = inr true ∧
  Projector.state (fst second) = Some ∅ ∧
  Projector.streamPositions (fst second) !! "s" = Some (Num 2) ∧
  map ev_no (handled (trace (Projector.world (fst second)))) = [1; 2] ∧
  ("readModel.persist" ∉ methods (trace (Projector.world (fst second)))).
Proof.
  intros first second.
  split; [vm_compute; reflexivity|].
  split; [vm_compute; reflexivity|].
  split; [vm_compute; reflexivity|].
  split; [apply (bool_decide_unpack _); vm_compute; exact I|].
  split; [vm_compute; reflexivity|].
  split.
  { intros (row & Hrow & _ & Hpos).
    vm_compute in Hrow. inversion Hrow; subst; clear Hrow.
    vm_compute in Hpos. discriminate. }
  split; [vm_compute; reflexivity|].
  split; [vm_compute; reflexivity|].
  split; [vm_compute; reflexivity|].
  split; [vm_compute; reflexivity|].
  apply (bool_decide_unpack _). vm_compute. exact I.
Qed.

(** A run in which the manager is told to stop while the event is handled:
    the poll after the fold persists, and the row is a checkpoint when
    [run] returns. *)
Example run_stopped_inside_is_checkpointed :
  let result :=
    run (requesting STOPPING) false
      (counter any_kind (world_of (store_with "s" [event "Inc" "a" 10]) ∅)) in
  snd result = inr true ∧
  methods (trace (Projector.world (fst result))) =
    ["fetchProjectionStatus"; "projections.write"; "readModel.isInitialized";
     "readModel.init"; "mergeAndLoad"; "handler"; "fetchProjectionStatus";
     "readModel.persist"; "projections.write"; "idleProjection"] ∧
  checkpointed (fst result).
Proof.
  intros result.
  split; [vm_compute; reflexivity|].
  split; [vm_compute; reflexivity|].
  eexists. split; [vm_compute; reflexivity|].
  split; vm_compute; reflexivity.
Qed.

(** C3 at an input on which the code departs from it.  The manager was
    told to delete the projection before the run.  The first poll deletes
    the row; the run then writes a new row, loads the stream and hands its
    event to the handler. *)
Lemma run_goes_on_after_deleting :
  let result :=
    run single false
      (counter any_kind
         (world_of (store_with "s" [event "Inc" "a" 10])
                   {[ "count" := deleting ]})) in
  snd result = inr true ∧
  methods (trace (Projector.world (fst result))) =
    ["fetchProjectionStatus"; "projections.delete"; "readModel.delete";
     "projections.write"; "readModel.isInitialized"; "readModel.init";
     "mergeAndLoad"; "handler"; "fetchProjectionStatus"] ∧
  map ev_no (handled (trace (Projector.world (fst result)))) = [1] ∧
  pr_status <$> projections (Projector.world (fst result)) !! "count"
    = Some (Some IDLE).
Proof. vm_compute. repeat split; reflexivity. Qed.

(** The poll inside the loop does what C3 says: when the manager is told
    to delete while an event is handled, the row is deleted, nothing is
    loaded after it, and the run ends without a row, also under
    [keepRunning]. *)
Example run_ends_after_deleting_inside :
  let result :=
    run (requesting DELETING) true
      (counter any_kind (world_of (store_with "s" [event "Inc" "a" 10]) ∅)) in
  snd result = inr true ∧
  methods (trace (Projector.world (fst result))) =
    ["fetchProjectionStatus"; "projections.write"; "readModel.isInitialized";
     "readModel.init"; "mergeAndLoad"; "handler"; "fetchProjectionStatus";
     "projections.delete"; "readModel.delete"] ∧
  projections (Projector.world (fst result)) !! "count" = None.
Proof. vm_compute. repeat split; reflexivity. Qed.

(** C4, as stated, fails: after [delete(true)] the stream named after the
    projection is still there, with the event emitted to it, and no call
    was made to delete it. *)
Lemma delete_keeps_emitted_stream :
  let p : MemProjector :=
    Projector.constructor "count"
      (world_of (store_with "count" [event "Out" "a" 1])
                {[ "count" := deleting ]}) in
  let result := Projector.delete true p in
  snd result = inr tt ∧
  snd (EventStore.hasStream "count" (Projector.world (fst result))) = inr true ∧
  map ev_name <$> InMemory.schemas (store (Projector.world (fst result))) !! "count"
    = Some ["Out"] ∧
  methods (trace (Projector.world (fst result))) =
    ["projections.delete"; "readModel.delete"].
Proof. vm_compute. repeat split; reflexivity. Qed.

(** [delete(true)] on the projector of the lemma above. *)
Lemma delete_effects_witness :
  let p : MemProjector :=
    Projector.constructor "count"
      (world_of (store_with "count" [event "Out" "a" 1])
                {[ "count" := deleting ]}) in
  let p' := fst (Projector.delete true p) in
  store (Projector.world p') = store (Projector.world p) ∧
  pending (Projector.world p') = pending (Projector.world p) ∧
  Projector.streamPositions p' = ∅.
Proof.
  intros p p'.
  destruct (delete_effects true p)
    as (_ & _ & _ & _ & _ & Hstore & Hpending & Hpositions).
  split; [exact Hstore|]. split; [exact Hpending|].
  apply Hpositions. reflexivity.
Defined.

(** C8 at an input on which the code departs from it: [fromStreams()]
    with no stream leaves the guard open, and the [fromAll()] after it is
    accepted. *)
Lemma from_accepted_after_empty_fromStreams :
  let p : MemProjector := Projector.constructor "count" (world_of empty_store ∅) in
  let result := (Projector.fromStreams [] >> Projector.fromAll) p in
  snd result = inr tt ∧
  Projector.query_all (fst result) = true ∧
  Projector.query_streams (fst result) = [].
Proof. vm_compute. repeat split; reflexivity. Qed.

(** C9 at an input on which the code departs from it.  When [emit]
    returns, the stream of the projection was created and holds no event:
    no [appendTo] has reached the persistence strategy, the append is
    pending, and the event only arrives when the pending task is run.
    [linkTo], on the same input, returns with the event in the stream. *)
Lemma emit_returns_before_append :
  let p : MemProjector := Projector.constructor "count" (world_of empty_store ∅) in
  let emitted := Projector.emit (event "Out" "a" 1) p in
  let linked := Projector.linkTo emptyMiddleware "count" (event "Out" "a" 1) p in
  let later :=
    fst (EventStore.run_task emptyMiddleware
           (AppendTask "count" [event "Out" "a" 1])
           (Projector.world (fst emitted))) in
  snd emitted = inr tt ∧
  methods (trace (Projector.world (fst emitted))) =
    ["hasStream"; "addStreamToStreamsTable"; "createSchema"] ∧
  InMemory.schemas (store (Projector.world (fst emitted))) !! "count" = Some [] ∧
  pending (Projector.world (fst emitted)) =
    [AppendTask "count" [event "Out" "a" 1]] ∧
  map ev_name <$> InMemory.schemas (store later) !! "count" = Some ["Out"] ∧
  snd linked = inr tt ∧
  methods (trace (Projector.world (fst linked))) =
    ["hasStream"; "addStreamToStreamsTable"; "createSchema"; "appendTo"] ∧
  map ev_name <$> InMemory.schemas (store (Projector.world (fst linked))) !! "count"
    = Some ["Out"].
Proof. vm_compute. repeat split; reflexivity. Qed.

(** A projector whose first [emit] has created its stream. *)
Lemma emit_skips_check_once_created_witness :
  let p : MemProjector :=
    fst (Projector.emit (event "Out" "a" 1)
           (Projector.constructor "count" (world_of empty_store ∅))) in
  let q := fst (Projector.reset p) in
  ∃ q', Projector.emit (event "Out" "b" 2) q = (q', inr tt) ∧
        trace (Projector.world q') = trace (Projector.world q) ∧
        store (Projector.world q') = store (Projector.world q) ∧
        pending (Projector.world q') =
          pending (Projector.world q) ++
          [AppendTask (Projector.name q) [event "Out" "b" 2]].
Proof.
  intros p.
  exact (proj2 (proj2 (proj2
           (emit_skips_check_once_created p (event "Out" "b" 2) eq_refl)))).
Defined.

(** The scenario of C10 from end to end: [emit], [reset], [emit].  The
    second [emit] calls nothing after the [deleteStream] of [reset]; the
    stream is gone, and the append that was started finds no stream. *)
Example emit_after_reset :
  let p : MemProjector := Projector.constructor "count" (world_of empty_store ∅) in
  let result :=
    (Projector.emit (event "Out" "a" 1) >> Projector.reset >>
     Projector.emit (event "Out" "b" 2)) p in
  let later :=
    EventStore.appendTo emptyMiddleware "count" [event "Out" "b" 2]
      (Projector.world (fst result)) in
  snd result = inr tt ∧
  methods (trace (Projector.world (fst result))) =
    ["hasStream"; "addStreamToStreamsTable"; "createSchema";
     "readModel.reset"; "projections.write"; "deleteStream"] ∧
  snd (EventStore.hasStream "count" (Projector.world (fst result))) = inr false ∧
  snd later = inl (StreamNotFound "count").
Proof. vm_compute. repeat split; reflexivity. Qed.
End ProjectorScenarios.

(** * Further properties *)

(** ** The middleware of [EventStore] *)

(** The constructor files every configured handler into the bucket of its
    action and into no other, keeping the order of registration: nothing
    is lost and nothing is duplicated. *)
Theorem constructor_buckets_by_action (options : list EventMiddleWare) :
  (∀ action,
     bucket (EventStore_constructor options) action = registered action options) ∧
  (length (bucket (EventStore_constructor options) PRE_APPEND) +
   length (bucket (EventStore_constructor options) APPEND_ERRORED) +
   length (bucket (EventStore_constructor options) APPENDED) +
   length (bucket (EventStore_constructor options) LOADED) =
   length options)%nat.
Proof.
  split; [intros action; apply bucket_constructor|].
  rewrite !bucket_constructor. unfold registered. rewrite !length_map.
  induction options as [|m options IH]; simpl; [reflexivity|].
  destruct (mw_action m); simpl; lia.
Qed.

(** ** The registries of [EventStore] *)

Lemma elem_of_bfilter {X} (f : X → bool) (l : list X) (x : X) :
  x ∈ List.filter f l ↔ x ∈ l ∧ f x = true.
Proof. rewrite !list_elem_of_In. apply filter_In. Qed.

Lemma bfilter_ext {X} (f g : X → bool) (l : list X) :
  (∀ x, x ∈ l → f x = g x) → List.filter f l = List.filter g l.
Proof.
  intros Hfg. apply filter_ext_in. intros x Hx. apply Hfg.
  by apply list_elem_of_In.
Qed.

Lemma bfilter_bfilter {X} (f g : X → bool) (l : list X) :
  List.filter f (List.filter g l) = List.filter (λ x, g x && f x) l.
Proof.
  induction l as [|x l IH]; simpl; [reflexivity|].
  destruct (g x); simpl; [destruct (f x)|]; by rewrite IH.
Qed.

Lemma elem_of_first_mentions (names : list string) (x : string) :
  x ∈ first_mentions names ↔ x ∈ names.
Proof.
  induction names as [|n names IH]; simpl; [reflexivity|].
  rewrite !elem_of_cons, elem_of_bfilter, IH.
  destruct (decide (x = n)) as [->|Hne]; [tauto|].
  rewrite bool_decide_eq_true. tauto.
Qed.

Section RegistryFacts.
Context {A : Type}.

Lemma own_get_set_eq (k : string) (v : A) (l : list (string * A)) :
  EventStore.own_get k (EventStore.own_set k v l) = Some v.
Proof.
  unfold EventStore.own_get.
  induction l as [|[k' v'] l IH]; simpl.
  - by rewrite bool_decide_true.
  - destruct (bool_decide (k' = k)) eqn:Hk; simpl.
    + by rewrite bool_decide_true.
    + by rewrite Hk.
Qed.

Lemma own_get_set_ne (k k' : string) (v : A) (l : list (string * A)) :
  k ≠ k' →
  EventStore.own_get k' (EventStore.own_set k v l) = EventStore.own_get k' l.
Proof.
  intros Hne. unfold EventStore.own_get.
  induction l as [|[k0 v0] l IH]; simpl.
  - by rewrite bool_decide_false.
  - destruct (bool_decide (k0 = k)) eqn:Hk; simpl.
    + apply bool_decide_eq_true in Hk. subst k0.
      by rewrite !bool_decide_false.
    + destruct (bool_decide (k0 = k')); [reflexivity|exact IH].
Qed.

Lemma own_get_elem (k : string) (v : A) (l : list (string * A)) :
  EventStore.own_get k l = Some v → (k, v) ∈ l.
Proof.
  unfold EventStore.own_get.
  destruct (List.find _ l) as [[k' v']|] eqn:Hfind; [|discriminate].
  intros Heq. inversion Heq; subst. apply find_some in Hfind as [Hin Hk].
  apply bool_decide_eq_true in Hk. simpl in Hk. subst.
  by apply list_elem_of_In.
Qed.

Lemma own_set_keys (k : string) (v : A) (l : list (string * A)) :
  (EventStore.own_set k v l).*1 =
  if bool_decide (k ∈ l.*1) then l.*1 else l.*1 ++ [k].
Proof.
  induction l as [|[k' v'] l IH]; csimpl; [reflexivity|].
  destruct (decide (k' = k)) as [->|Hne].
  - rewrite !bool_decide_true; [reflexivity|left|reflexivity].
  - rewrite (bool_decide_false (k' = k)) by done. csimpl. rewrite IH.
    destruct (decide (k ∈ l.*1)) as [Hin|Hnin].
    + rewrite !bool_decide_true; [reflexivity|by right|done].
    + rewrite !bool_decide_false; [reflexivity| |done].
      intros Hin. apply elem_of_cons in Hin as [->|Hin]; done.
Qed.

(** The own properties after the [reduce]: the last entry of a name is
    the one that is read. *)
Lemma js_assign_own_other (n name : string) (x : A) (acc : EventStore.PlainObject) :
  bool_decide (n = name) && bool_decide (name ≠ "__proto__") = false →
  EventStore.own_get name (EventStore.own (EventStore.js_assign n x acc)) =
  EventStore.own_get name (EventStore.own acc).
Proof.
  intros Hhead. unfold EventStore.js_assign.
  destruct (decide (n = "__proto__")) as [->|Hp].
  - by rewrite bool_decide_true.
  - rewrite bool_decide_false by done. cbn [EventStore.own].
    apply own_get_set_ne. intros ->.
    rewrite bool_decide_true in Hhead by done.
    rewrite bool_decide_true in Hhead by done. discriminate.
Qed.

Lemma index_own (entries : list (string * A)) :
  ∀ (acc : EventStore.PlainObject) (name : string),
  EventStore.own_get name
    (EventStore.own
       (fold_left (λ acc entry, EventStore.js_assign entry.1 entry.2 acc)
                  entries acc)) =
  match last (List.filter
                (λ entry, bool_decide (entry.1 = name) &&
                          bool_decide (name ≠ "__proto__")) entries) with
  | Some entry => Some entry.2
  | None => EventStore.own_get name (EventStore.own acc)
  end.
Proof.
  induction entries as [|[n x] entries IH]; intros acc name;
    cbn [fold_left List.filter fst snd].
  - reflexivity.
  - rewrite IH.
    destruct (bool_decide (n = name) && bool_decide (name ≠ "__proto__"))
      eqn:Hhead.
    + rewrite last_cons.
      destruct (last (List.filter _ entries)); [reflexivity|].
      apply andb_true_iff in Hhead as [Hn Hp].
      apply bool_decide_eq_true in Hn. apply bool_decide_eq_true in Hp.
      subst n. unfold EventStore.js_assign.
      rewrite bool_decide_false by done. cbn [EventStore.own snd].
      apply own_get_set_eq.
    + destruct (last (List.filter _ entries)); [reflexivity|].
      by apply js_assign_own_other.
Qed.

Lemma index_proto (entries : list (string * A)) :
  ∀ (acc : EventStore.PlainObject),
  "__proto__" ∉ entries.*1 →
  EventStore.proto
    (fold_left (λ acc entry, EventStore.js_assign entry.1 entry.2 acc)
               entries acc) = EventStore.proto acc.
Proof.
  induction entries as [|[n x] entries IH]; intros acc Hnot; simpl.
  - reflexivity.
  - rewrite IH.
    + unfold EventStore.js_assign. simpl.
      rewrite bool_decide_false; [reflexivity|].
      intros ->. apply Hnot. left.
    + intros Hin. apply Hnot. by right.
Qed.

Lemma index_keys (entries : list (string * A)) :
  ∀ (acc : EventStore.PlainObject),
  (EventStore.own
     (fold_left (λ acc entry, EventStore.js_assign entry.1 entry.2 acc)
                entries acc)).*1 =
  (EventStore.own acc).*1 ++
  List.filter (λ x, bool_decide (x ∉ (EventStore.own acc).*1))
              (first_mentions (property_names entries)).
Proof.
  unfold property_names.
  induction entries as [|[n x] entries IH]; intros acc;
    cbn [fold_left fst snd].
  - cbn. by rewrite app_nil_r.
  - rewrite IH. rewrite fmap_cons. cbn [List.filter fst].
    unfold EventStore.js_assign.
    destruct (decide (n = "__proto__")) as [->|Hp].
    + rewrite (bool_decide_true ("__proto__" = "__proto__")) by done.
      rewrite (bool_decide_false ("__proto__" ≠ "__proto__")) by auto.
      reflexivity.
    + rewrite (bool_decide_false (n = "__proto__")) by done.
      rewrite (bool_decide_true (n ≠ "__proto__")) by done.
      cbn [EventStore.own first_mentions List.filter].
      rewrite own_set_keys.
      destruct (decide (n ∈ (EventStore.own acc).*1)) as [Hin|Hnin].
      * rewrite (bool_decide_true (n ∈ _)) by done.
        rewrite (bool_decide_false (n ∉ (EventStore.own acc).*1)) by auto.
        f_equal. rewrite bfilter_bfilter. apply bfilter_ext.
        intros y _.
        destruct (decide (y ∈ (EventStore.own acc).*1)) as [Hy|Hy].
        -- rewrite (bool_decide_false (y ∉ _)) by auto. by rewrite andb_false_r.
        -- rewrite (bool_decide_true (y ∉ _)) by done.
           rewrite bool_decide_true; [reflexivity|]. by intros ->.
      * rewrite (bool_decide_false (n ∈ _)) by done.
        rewrite (bool_decide_true (n ∉ (EventStore.own acc).*1)) by done.
        rewrite <- app_assoc. cbn [app]. do 2 f_equal.
        rewrite bfilter_bfilter. apply bfilter_ext.
        intros y _.
        destruct (decide (y = n)) as [->|Hyn].
        -- rewrite (bool_decide_false (n ≠ n)) by auto. cbn [andb].
           apply bool_decide_eq_false. intros Hy. apply Hy.
           apply elem_of_app. right. left.
        -- rewrite (bool_decide_true (y ≠ n)) by done. cbn [andb].
           apply bool_decide_ext. rewrite elem_of_app, list_elem_of_singleton.
           tauto.
Qed.

(** Reading a projection from a registry built by the constructor.  A name
    that was never registered, and that is not a name of
    [Object.prototype], gives [ProjectionNotFound]; a name of
    [Object.prototype] that was never registered is found all the same,
    as the inherited property; a projection that is found was registered
    under this name; and of several entries with one name the last one is
    found.  An entry named [__proto__] registers nothing. *)
Theorem getProjector_registered (inherits : A → string → bool)
  (entries : list (string * A)) (name : string) :
  (name ∉ entries.*1 → "__proto__" ∉ entries.*1 →
   EventStore.getProjector inherits (EventStore.index_by_name entries) name =
     if bool_decide (name ∈ object_prototype)
     then inr (EventStore.Inherited name)
     else inl (ProjectionNotFound name)) ∧
  (∀ projection,
     EventStore.getProjector inherits (EventStore.index_by_name entries) name
       = inr (EventStore.Registered projection) →
     (name, projection) ∈ entries ∧ name ≠ "__proto__") ∧
  (∀ projection,
     name ≠ "__proto__" →
     EventStore.getProjector inherits
       (EventStore.index_by_name (entries ++ [(name, projection)])) name
       = inr (EventStore.Registered projection)) ∧
  (∀ projection,
     EventStore.getProjector inherits
       (EventStore.index_by_name (entries ++ [("__proto__", projection)])) name =
     match EventStore.getProjector inherits (EventStore.index_by_name entries) name with
     | inr (EventStore.Registered found) => inr (EventStore.Registered found)
     | _ => if inherits projection name then inr (EventStore.Inherited name)
            else inl (ProjectionNotFound name)
     end).
Proof.
  unfold EventStore.getProjector, EventStore.index_by_name.
  split; [|split; [|split]].
  - intros Hnot Hproto. rewrite index_own, index_proto by done. simpl.
    destruct (last _) as [[n x]|] eqn:Hlast; [|reflexivity].
    exfalso. apply Hnot. apply last_Some_elem_of in Hlast.
    apply elem_of_bfilter in Hlast as [Hin Hn].
    apply andb_true_iff in Hn as [Hn _].
    apply bool_decide_eq_true in Hn. simpl in Hn. subst n.
    apply list_elem_of_fmap. by exists (name, x).
  - intros projection. rewrite index_own. simpl.
    destruct (last _) as [[n x]|] eqn:Hlast.
    + intros Heq. inversion Heq; subst.
      apply last_Some_elem_of in Hlast.
      apply elem_of_bfilter in Hlast as [Hin Hn].
      apply andb_true_iff in Hn as [Hn Hp].
      apply bool_decide_eq_true in Hn. apply bool_decide_eq_true in Hp.
      simpl in Hn. by subst n.
    + unfold EventStore.own_get. simpl.
      match goal with |- (if ?c then _ else _) = _ → _ => destruct c end;
        discriminate.
  - intros projection Hp. rewrite fold_left_app. simpl.
    unfold EventStore.js_assign. simpl.
    rewrite (bool_decide_false (name = "__proto__")) by done. simpl.
    by rewrite own_get_set_eq.
  - intros projection. rewrite fold_left_app. simpl.
    unfold EventStore.js_assign at 1 2. simpl.
    destruct (EventStore.own_get name _) as [found|]; [reflexivity|].
    simpl.
    destruct (match EventStore.proto _ with
              | Some object => inherits object name
              | None => bool_decide (name ∈ object_prototype)
              end); reflexivity.
Qed.
End RegistryFacts.

Lemma elem_of_Object_keys {A} (o : EventStore.PlainObject (A := A)) (k : string) :
  k ∈ EventStore.Object_keys o ↔ k ∈ (EventStore.own o).*1.
Proof.
  unfold EventStore.Object_keys. rewrite elem_of_app, elem_of_bfilter.
  rewrite list_elem_of_fmap.
  split.
  - intros [([n k'] & -> & Hin)|[Hin _]]; [|exact Hin].
    rewrite merge_sort_Permutation in Hin.
    apply list_elem_of_omap in Hin as (k0 & Hk0 & Hsome).
    destruct (EventStore.array_index k0); inversion Hsome; by subst.
  - intros Hin.
    destruct (EventStore.array_index k) as [n|] eqn:Hk.
    + left. exists (n, k). split; [reflexivity|].
      rewrite merge_sort_Permutation. apply list_elem_of_omap.
      exists k. split; [exact Hin|]. by rewrite Hk.
    + right. split; [exact Hin|]. by apply bool_decide_eq_true.
Qed.

Lemma Object_keys_without_indices {A} (o : EventStore.PlainObject (A := A)) :
  (∀ k, k ∈ (EventStore.own o).*1 → EventStore.array_index k = None) →
  EventStore.Object_keys o = (EventStore.own o).*1.
Proof.
  unfold EventStore.Object_keys.
  generalize ((EventStore.own o).*1). intros keys Hnone.
  assert (Homap :
    omap (λ k, (λ n, (n, k)) <$> EventStore.array_index k) keys = []).
  { induction keys as [|k keys IH]; [reflexivity|].
    cbn [omap list_omap]. rewrite (Hnone k) by left. cbn [fmap option_fmap option_map].
    apply IH. intros k' Hk'. apply Hnone. by right. }
  rewrite Homap. cbn.
  induction keys as [|k keys IH]; [reflexivity|].
  cbn [List.filter]. rewrite (bool_decide_true (EventStore.array_index k = None)).
  - f_equal. apply IH.
    + intros k' Hk'. apply Hnone. by right.
    + revert Homap. cbn [omap list_omap]. rewrite (Hnone k) by left.
      cbn [fmap option_fmap option_map]. done.
  - apply Hnone. left.
Qed.

(** [registeredProjections] over the registries built by the constructor
    lists exactly the names that were registered, [__proto__] apart, in
    either registry; a name registered in both is listed twice, one
    registered several times in one registry once.  Where no name is an
    array index, the list is the names of the projections in the order of
    their first registration, followed by those of the read-model
    projections in the order of theirs. *)
Theorem registeredProjections_in_order {A B}
  (projections : list (string * A)) (readModelProjections : list (string * B)) :
  (∀ name,
     name ∈ EventStore.registeredProjections
              (EventStore.index_by_name projections)
              (EventStore.index_by_name readModelProjections) ↔
     name ∈ property_names projections ∨
     name ∈ property_names readModelProjections) ∧
  ((∀ name, name ∈ projections.*1 ++ readModelProjections.*1 →
            EventStore.array_index name = None) →
   EventStore.registeredProjections
     (EventStore.index_by_name projections)
     (EventStore.index_by_name readModelProjections) =
   first_mentions (property_names projections) ++
   first_mentions (property_names readModelProjections)).
Proof.
  assert (Hkeys : ∀ X (entries : list (string * X)),
    (EventStore.own (EventStore.index_by_name entries)).*1 =
    first_mentions (property_names entries)).
  { intros X entries. unfold EventStore.index_by_name.
    rewrite index_keys. cbn [EventStore.own fmap list_fmap app].
    rewrite <- (filter_ext_in (λ _, true)).
    - induction (first_mentions _) as [|y ys IH]; [reflexivity|].
      cbn [List.filter]. by rewrite IH.
    - intros y _. symmetry. apply bool_decide_eq_true. apply not_elem_of_nil. }
  split.
  - intros name. unfold EventStore.registeredProjections.
    rewrite elem_of_app, !elem_of_Object_keys, !Hkeys.
    by rewrite !elem_of_first_mentions.
  - intros Hnone. unfold EventStore.registeredProjections.
    rewrite !Object_keys_without_indices, !Hkeys; [reflexivity| |].
    + intros k Hk. rewrite Hkeys in Hk.
      apply elem_of_first_mentions, elem_of_bfilter in Hk as [Hk _].
      apply Hnone, elem_of_app. by right.
    + intros k Hk. rewrite Hkeys in Hk.
      apply elem_of_first_mentions, elem_of_bfilter in Hk as [Hk _].
      apply Hnone, elem_of_app. by left.
Qed.

(** Two projections and a read-model projection: ["constructor"] was never
    registered and is found, the second ["users"] replaces the first and
    keeps its place, and the keys that are array indices come first. *)
Example registry_of_plain_objects :
  let projections := EventStore.index_by_name [("users", 1); ("10", 2); ("users", 3); ("2", 4)] in
  let readModels := EventStore.index_by_name [("users", 5)] in
  EventStore.getProjector (λ _ _, false) projections "constructor"
    = inr (EventStore.Inherited "constructor") ∧
  EventStore.getProjector (λ _ _, false) projections "orders"
    = inl (ProjectionNotFound "orders") ∧
  EventStore.getProjector (λ _ _, false) projections "users"
    = inr (EventStore.Registered 3) ∧
  EventStore.registeredProjections projections readModels
    = ["2"; "10"; "users"; "users"].
Proof. vm_compute. repeat split; reflexivity. Qed.

Section RepositoryFacts.
Context {Aggregate : Type} `{Countable Aggregate}.

(** [getRepository] after [createRepository] gives the repository that was
    created, bound to the stream of the call; a second [createRepository]
    for the same aggregate replaces the first; the repositories of other
    aggregates are not touched; without a [createRepository] the call
    throws. *)
Theorem getRepository_after_create (streamName streamName' : string)
  (aggregate other : Aggregate)
  (repositories : gmap Aggregate EventStore.Repository) :
  let '(created, repository) :=
    EventStore.createRepository streamName aggregate repositories in
  EventStore.getRepository aggregate created = inr repository ∧
  EventStore.rp_streamName repository = streamName ∧
  EventStore.getRepository aggregate
    (EventStore.createRepository streamName' aggregate created).1
    = inr (EventStore.createRepository streamName' aggregate created).2 ∧
  (other ≠ aggregate →
   EventStore.getRepository other created =
   EventStore.getRepository other repositories) ∧
  EventStore.getRepository aggregate (∅ : gmap Aggregate EventStore.Repository)
    = inl (BackendError "No Repository for this Aggregate was created").
Proof.
  unfold EventStore.createRepository, EventStore.getRepository. simpl.
  rewrite !lookup_insert_eq, lookup_empty. repeat split.
  intros Hne. by rewrite lookup_insert_ne.
Qed.
End RepositoryFacts.

(** ** More on [appendTo] *)

Section AppendFacts.
Context {Store RM : Type} `{!PersistenceStrategy Store}.

Abbreviation W := (World Store RM).

(** An empty batch is answered at once, whatever the strategy would do:
    no call is made and nothing changes.  When the persistence strategy
    accepts the non-empty batch it is handed, [appendTo] returns normally,
    has called the strategy once, and has started one [APPENDED] chain for
    every event handed over and no [APPEND_ERRORED] chain. *)
Theorem appendTo_success (middleware : MiddlewareCollection) (name : string)
  (w : W) :
  EventStore.appendTo middleware name [] w = (w, inr tt) ∧
  ∀ (events handed : list IEvent) (s' : Store),
    events ≠ [] →
    promise_all (chain PRE_APPEND (bucket middleware PRE_APPEND)) events
      = inr handed →
    ps_appendTo name handed (store w) = (s', inr tt) →
    ∃ w', EventStore.appendTo middleware name events w = (w', inr tt) ∧
          store w' = s' ∧
          trace w' = appendTo_call name handed :: trace w ∧
          pending w' =
            pending w ++
            map (MiddlewareTask APPENDED (bucket middleware APPENDED)) handed.
Proof.
  split; [reflexivity|].
  intros events handed s' Hne Hpre Hps. unfold EventStore.appendTo.
  destruct events as [|e0 events]; [done|].
  rewrite Hpre. run_monad. rewrite Hps. simpl.
  eexists. split; [reflexivity|]. simpl. auto.
Qed.
End AppendFacts.

(** ** More on the projector *)

Section ProjectorMore.
Context {Store RM : Type}.
Context `{!PersistenceStrategy Store} `{!ReadModel RM} `{!ProjectionManager}.

Abbreviation P := (Projector.t Store RM).

(** [init] sets the state to what the callback returns and keeps the
    callback; every later [init] throws [AlreadyInitialized] and changes
    nothing, so the state stays that of the first callback. *)
Theorem init_only_once (p : P) (callback again : unit → IState) :
  Projector.initHandler p = None →
  let p' := fst (Projector.init callback p) in
  snd (Projector.init callback p) = inr tt ∧
  Projector.state p' = Some (callback tt) ∧
  Projector.init again p' = (p', inl (ProjectorException alreadyInitialized)).
Proof.
  intros Hnone. unfold Projector.init. run_monad. rewrite Hnone. simpl. auto.
Qed.

(** After [when] or [whenAny] has been accepted, both throw
    [WhenAlreadyCalled]. *)
Theorem when_only_once (slots slots' : Projector.Handlers Store RM)
  (hs hs' : gmap string (Projector.Handler Store RM))
  (h h' : Projector.Handler Store RM) :
  Projector.when hs slots = inr slots' ∨ Projector.whenAny h slots = inr slots' →
  Projector.when hs' slots' = inl (ProjectorException whenWasAlreadyCalled) ∧
  Projector.whenAny h' slots' = inl (ProjectorException whenWasAlreadyCalled).
Proof.
  unfold Projector.when, Projector.whenAny.
  destruct (Projector.handler slots), (Projector.handlers slots);
    intros [Hw|Hw]; try discriminate; inversion Hw; subst; simpl; auto.
Qed.

(** Once a source was selected by [fromAll], by [fromStream] or by
    [fromStreams] with at least one stream, each of the three methods
    throws [FromAlreadyCalled] and leaves the projector as it is. *)
Theorem from_only_once (p p' : P) (stream first : IStream)
  (streams others : list IStream) :
  Projector.from_guard p = false →
  p' = fst (Projector.fromAll p) ∨
  p' = fst (Projector.fromStream stream p) ∨
  p' = fst (Projector.fromStreams (first :: streams) p) →
  Projector.fromAll p' = (p', inl (ProjectorException fromWasAlreadyCalled)) ∧
  Projector.fromStream stream p' =
    (p', inl (ProjectorException fromWasAlreadyCalled)) ∧
  Projector.fromStreams others p' =
    (p', inl (ProjectorException fromWasAlreadyCalled)).
Proof.
  intros Hguard Hp'. apply from_rejected_under_guard.
  destruct (from_guard_established p stream (first :: streams) Hguard)
    as (Hall & Hone & Hmany).
  destruct Hp' as [->|[->| ->]]; auto.
Qed.



(** *** Stream positions *)

Lemma zero_fold (streams : list string) :
  ∀ (acc : gmap string JsNum) (k : string),
  fold_left (λ acc stream, <[stream := Num 0]> acc) streams acc !! k =
  if bool_decide (k ∈ streams) then Some (Num 0) else acc !! k.
Proof.
  induction streams as [|s streams IH]; intros acc k; simpl.
  - reflexivity.
  - rewrite IH. destruct (decide (k ∈ streams)) as [Hin|Hnin].
    + rewrite !bool_decide_true; [done| |done]. by right.
    + rewrite (bool_decide_false (k ∈ streams)) by done.
      destruct (decide (s = k)) as [->|Hne].
      * rewrite lookup_insert_eq, bool_decide_true; [done|left].
      * rewrite lookup_insert_ne by done.
        rewrite bool_decide_false; [done|].
        intros Hin. apply elem_of_cons in Hin as [->|Hin]; done.
Qed.

Lemma prepare_lookup (eventStreams : Store → list string) (p : P) (k : string) :
  Projector.streamPositions
    (fst (Projector.prepareStreamPosition eventStreams p)) !! k =
  match Projector.streamPositions p !! k with
  | Some v => Some v
  | None => if bool_decide (k ∈ selected eventStreams p) then Some (Num 0)
            else None
  end.
Proof.
  unfold Projector.prepareStreamPosition, selected, js_spread,
    Projector.zero_positions. run_monad.
  rewrite lookup_union.
  destruct (Projector.streamPositions p !! k) as [v|] eqn:Hk; simpl.
  - match goal with |- Some _ ∪ ?o = _ => destruct o; reflexivity end.
  - destruct (bool_decide (0 < length (Projector.query_streams p))%nat).
    + rewrite zero_fold, lookup_empty. by destruct (bool_decide _).
    + destruct (Projector.query_all p).
      * rewrite zero_fold, lookup_empty. by destruct (bool_decide _).
      * rewrite lookup_empty. rewrite bool_decide_false; [done|].
        apply not_elem_of_nil.
Qed.


(** Preparing the positions twice is preparing them once. *)
Theorem prepareStreamPosition_idempotent (eventStreams : Store → list string)
  (p : P) :
  let p' := fst (Projector.prepareStreamPosition eventStreams p) in
  fst (Projector.prepareStreamPosition eventStreams p') = p'.
Proof.
  cbv zeta.
  assert (Hpos : Projector.streamPositions
            (fst (Projector.prepareStreamPosition eventStreams
               (fst (Projector.prepareStreamPosition eventStreams p)))) =
          Projector.streamPositions
            (fst (Projector.prepareStreamPosition eventStreams p))).
  { apply map_eq. intros k. rewrite !prepare_lookup.
    assert (Hsel : selected eventStreams
              (fst (Projector.prepareStreamPosition eventStreams p)) =
            selected eventStreams p) by reflexivity.
    rewrite Hsel.
    destruct (Projector.streamPositions p !! k); [reflexivity|].
    destruct (bool_decide _); reflexivity. }
  revert Hpos. unfold Projector.prepareStreamPosition. run_monad.
  intros Hpos. unfold Projector.set_streamPositions. simpl. f_equal. exact Hpos.
Qed.

(** *** The projection row *)

(** [load] without a row throws [ProjectionNotFound] and changes nothing.
    With a row it takes the state of the row, whatever the state in memory
    was, and overlays the positions in memory with those of the row. *)
Theorem load_takes_row (p : P) :
  match projections (Projector.world p) !! Projector.name p with
  | None =>
      Projector.load p = (p, inl (ProjectionNotFound (Projector.name p)))
  | Some row =>
      let p' := fst (Projector.load p) in
      snd (Projector.load p) = inr tt ∧
      Projector.state p' = Some (pr_state row) ∧
      Projector.world p' = Projector.world p ∧
      ∀ k, Projector.streamPositions p' !! k =
           match pr_positions row !! k with
           | Some v => Some v
           | None => Projector.streamPositions p !! k
           end
  end.
Proof.
  destruct (projections (Projector.world p) !! Projector.name p) as [row|] eqn:Hrow.
  - rewrite (load_reads_row p row Hrow). simpl. repeat split.
    intros k. unfold js_spread. rewrite lookup_union.
    destruct (pr_positions row !! k), (Projector.streamPositions p !! k);
      reflexivity.
  - unfold Projector.load. run_monad. rewrite Hrow. by destruct p.
Qed.

(** What [persist] writes, [load] reads back: after the two the positions
    are the same and the state is the same, an undefined state having
    become the empty object. *)
Theorem persist_then_load (p : P) rm' :
  rm_persist (readModel (Projector.world p)) = (rm', inr tt) →
  let p' := fst ((Projector.persist >> Projector.load) p) in
  snd ((Projector.persist >> Projector.load) p) = inr tt ∧
  Projector.state p' = Some (default ∅ (Projector.state p)) ∧
  Projector.streamPositions p' = Projector.streamPositions p.
Proof.
  intros Hpersist. simpl. unfold bind.
  rewrite (persist_writes_row p rm' Hpersist).
  match goal with
  | |- context [Projector.load ?q] =>
      rewrite (load_reads_row q
                 {| pr_state := default ∅ (Projector.state p);
                    pr_positions := Projector.streamPositions p;
                    pr_status := projections (Projector.world p)
                                   !! Projector.name p ≫= pr_status |})
        by (simpl; apply lookup_insert_eq)
  end.
  simpl. repeat split. unfold js_spread. apply map_union_idemp.
Qed.

(** A row made by [createProjection] holds the empty state: the [load]
    that follows replaces the state of the projector, the state set by
    [init] too, by the empty object, and keeps its positions. *)
Theorem createProjection_then_load (p : P) :
  let p' := fst ((Projector.createProjection >> Projector.load) p) in
  snd ((Projector.createProjection >> Projector.load) p) = inr tt ∧
  Projector.state p' = Some ∅ ∧
  Projector.streamPositions p' = Projector.streamPositions p ∧
  projections (Projector.world p') !! Projector.name p =
    Some {| pr_state := ∅; pr_positions := ∅; pr_status := Some IDLE |}.
Proof.
  simpl. unfold bind.
  assert (Hcreate : Projector.createProjection p =
    (Projector.set_world
       {| store := store (Projector.world p);
          readModel := readModel (Projector.world p);
          projections :=
            <[Projector.name p :=
                {| pr_state := ∅; pr_positions := ∅; pr_status := Some IDLE |}]>
              (projections (Projector.world p));
          trace := projections_write (Projector.name p)
                     {| pr_state := ∅; pr_positions := ∅;
                        pr_status := Some IDLE |} :: trace (Projector.world p);
          pending := pending (Projector.world p) |} p, inr tt)).
  { unfold Projector.createProjection. run_monad. reflexivity. }
  rewrite Hcreate.
  match goal with
  | |- context [Projector.load ?q] =>
      rewrite (load_reads_row q
                 {| pr_state := ∅; pr_positions := ∅; pr_status := Some IDLE |})
        by (simpl; apply lookup_insert_eq)
  end.
  simpl. repeat split.
  - unfold js_spread. apply map_empty_union.
  - apply lookup_insert_eq.
Qed.

(** *** Control *)

(** [startAgain] clears [isStopped] before it looks for the row: without a
    row it throws [ProjectionNotFound] with [isStopped] already cleared.
    With a row it sets the status [RUNNING] in the row and in the
    projector and keeps the state and the positions of the row. *)
Theorem startAgain_effects (p : P) :
  let p' := fst (Projector.startAgain p) in
  Projector.isStopped p' = false ∧
  match projections (Projector.world p) !! Projector.name p with
  | None =>
      snd (Projector.startAgain p) = inl (ProjectionNotFound (Projector.name p)) ∧
      Projector.status p' = Projector.status p ∧
      Projector.world p' = Projector.world p
  | Some row =>
      snd (Projector.startAgain p) = inr tt ∧
      Projector.status p' = RUNNING ∧
      projections (Projector.world p') !! Projector.name p =
        Some {| pr_state := pr_state row; pr_positions := pr_positions row;
                pr_status := Some RUNNING |}
  end.
Proof.
  unfold Projector.startAgain. run_monad.
  destruct (projections (Projector.world p) !! Projector.name p) as [row|];
    simpl; repeat split.
  apply lookup_insert_eq.
Qed.

(** [fetchRemoteStatus] never throws: it answers with the status the
    manager gives, and with [RUNNING] when the manager throws.  Of the
    projector it changes nothing but the world. *)
Theorem fetchRemoteStatus_never_throws (p : P) :
  let p' := fst (Projector.fetchRemoteStatus p) in
  (match mg_fetchProjectionStatus (Projector.name p)
           (projections (Projector.world p)) with
   | (_, inr s) => snd (Projector.fetchRemoteStatus p) = inr s
   | (_, inl _) => snd (Projector.fetchRemoteStatus p) = inr (Some RUNNING)
   end) ∧
  Projector.state p' = Projector.state p ∧
  Projector.streamPositions p' = Projector.streamPositions p ∧
  Projector.isStopped p' = Projector.isStopped p ∧
  trace (Projector.world p') =
    fetchProjectionStatus_call (Projector.name p) :: trace (Projector.world p).
Proof.
  unfold Projector.fetchRemoteStatus. run_monad.
  destruct (mg_fetchProjectionStatus _ _) as [table [e|s]]; simpl; auto.
Qed.

(** When the read model resets, [reset] empties the positions, sets the
    state to what the init handler returns, writes a fresh [IDLE] row with
    empty state and positions and asks for the deletion of the stream
    named after the projection; it does not touch [isStopped], and its
    outcome is the outcome of that deletion. *)
Theorem reset_effects (p : P) rm' :
  rm_reset (readModel (Projector.world p)) = (rm', inr tt) →
  let p' := fst (Projector.reset p) in
  let row := {| pr_state := ∅; pr_positions := ∅; pr_status := Some IDLE |} in
  Projector.streamPositions p' = ∅ ∧
  Projector.state p' = (λ f, f tt) <$> Projector.initHandler p ∧
  Projector.isStopped p' = Projector.isStopped p ∧
  projections (Projector.world p') =
    <[Projector.name p := row]> (projections (Projector.world p)) ∧
  trace (Projector.world p') =
    deleteStream_call (Projector.name p) ::
    projections_write (Projector.name p) row ::
    readModel_reset_call :: trace (Projector.world p) ∧
  snd (Projector.reset p) =
    snd (ps_deleteStream (Projector.name p) (store (Projector.world p))).
Proof.
  intros Hreset.
  unfold Projector.reset, Projector.reinit, EventStore.deleteStream.
  run_monad. rewrite Hreset. simpl.
  destruct (Projector.initHandler p) as [f|]; simpl;
    destruct (ps_deleteStream _ _) as [s' [e|[]]]; simpl; repeat split.
Qed.

(** When the read model fails to reset, [reset] throws its error with the
    positions already emptied; the state, the row and the stream are as
    they were. *)
Theorem reset_failure (p : P) rm' e :
  rm_reset (readModel (Projector.world p)) = (rm', inl e) →
  let p' := fst (Projector.reset p) in
  snd (Projector.reset p) = inl e ∧
  Projector.streamPositions p' = ∅ ∧
  Projector.state p' = Projector.state p ∧
  projections (Projector.world p') = projections (Projector.world p) ∧
  store (Projector.world p') = store (Projector.world p) ∧
  trace (Projector.world p') = readModel_reset_call :: trace (Projector.world p).
Proof.
  intros Hreset. unfold Projector.reset. run_monad. rewrite Hreset. simpl.
  repeat split.
Qed.

(** *** [run] *)

(** Without [when] and [whenAny], [run] throws [NoHandler]; with one of
    them and no state it throws [StateNotInitialised]; in both cases
    nothing is polled, loaded or changed.  The missing handler is reported
    first. *)
Theorem run_guards (middleware : MiddlewareCollection)
  (eventStreams : Store → list string) (fuel : nat)
  (slots : Projector.Handlers Store RM) (keepRunning : bool) (p : P) :
  (Projector.handler slots = None → Projector.handlers slots = None →
   Projector.run middleware eventStreams fuel slots keepRunning p =
     (p, inl (ProjectorException noHandler))) ∧
  (is_Some (Projector.handler slots) ∨ is_Some (Projector.handlers slots) →
   Projector.state p = None →
   Projector.run middleware eventStreams fuel slots keepRunning p =
     (p, inl (ProjectorException stateWasNotInitialised))).
Proof.
  unfold Projector.run. split.
  - intros -> ->. reflexivity.
  - intros Hsome Hstate.
    destruct (Projector.handler slots) as [h|], (Projector.handlers slots) as [hs|];
      try (destruct Hsome as [[? Hs]|[? Hs]]; discriminate);
      run_monad; rewrite Hstate; reflexivity.
Qed.

Lemma bind_never_false {S A} (c : M S A) (k : A → M S bool) (s : S) :
  (∀ a s', snd (k a s') ≠ inr false) → snd (bind c k s) ≠ inr false.
Proof.
  intros Hk. unfold bind. destruct (c s) as [s' [e|a]]; simpl; [discriminate|].
  apply Hk.
Qed.

Lemma loop_without_keepRunning (middleware : MiddlewareCollection)
  (eventStreams : Store → list string) (fuel : nat)
  (slots : Projector.Handlers Store RM) (p : P) :
  Projector.loop middleware eventStreams (S fuel) slots false p =
  Projector.loop middleware eventStreams 1 slots false p ∧
  snd (Projector.loop middleware eventStreams 1 slots false p) ≠ inr false.
Proof.
  split; [reflexivity|]. simpl.
  apply bind_never_false. intros _ s'.
  apply bind_never_false. intros stopped s''. simpl. discriminate.
Qed.

(** [run(false)] makes one pass through the loop and leaves it: with any
    bound of at least one pass the result is the same, and the bound is
    never what ends the run. *)
Theorem run_once_without_keepRunning (middleware : MiddlewareCollection)
  (eventStreams : Store → list string) (fuel : nat)
  (slots : Projector.Handlers Store RM) (p : P) :
  Projector.run middleware eventStreams (S fuel) slots false p =
  Projector.run middleware eventStreams 1 slots false p ∧
  snd (Projector.run middleware eventStreams 1 slots false p) ≠ inr false.
Proof.
  split.
  - unfold Projector.run.
    assert (Hloop : Projector.loop middleware eventStreams (S fuel) slots false =
                    Projector.loop middleware eventStreams 1 slots false)
      by reflexivity.
    by rewrite Hloop.
  - unfold Projector.run.
    assert (Hbody : ∀ q,
      snd ((let* state := gets Projector.state in
            match state with
            | None => throw (ProjectorException stateWasNotInitialised)
            | Some _ =>
                let* s := Projector.fetchRemoteStatus in
                Projector.react_before false s >>
                let* exists_ := Projector.projectionExists in
                (if exists_ : bool then ret tt else Projector.createProjection) >>
                let* initialized :=
                  Projector.in_world
                    (on_readModel readModel_isInitialized_call rm_isInitialized) in
                (if initialized : bool then ret tt
                 else Projector.in_world (on_readModel readModel_init_call rm_init)) >>
                Projector.prepareStreamPosition eventStreams >>
                Projector.load >>
                modify (Projector.set_isStopped false) >>
                Projector.loop middleware eventStreams 1 slots false
            end) q) ≠ inr false).
    { intros q. apply bind_never_false. intros [st|] s'; [|discriminate].
      do 8 (apply bind_never_false; intros ? ?).
      apply loop_without_keepRunning. exact 0%nat. }
    destruct (Projector.handler slots), (Projector.handlers slots);
      try apply Hbody. discriminate.
Qed.

(** *** The fold *)

Lemma set_streamPositions_twice (x y : gmap string JsNum) (p : P) :
  Projector.set_streamPositions x (Projector.set_streamPositions y p) =
  Projector.set_streamPositions x p.
Proof. reflexivity. Qed.







(** *** Emitting *)

(** When [linkTo] returns normally, the event, as the [PRE_APPEND]
    handlers left it, has been handed to the persistence strategy for the
    named stream, and this is the last call made; the [APPENDED] chain for
    it has been started. *)
Theorem linkTo_appends_before_returning (middleware : MiddlewareCollection)
  (streamName : string) (event : IEvent) (p p' : P) :
  Projector.linkTo middleware streamName event p = (p', inr tt) →
  ∃ handed earlier,
    chain PRE_APPEND (bucket middleware PRE_APPEND) event = inr handed ∧
    trace (Projector.world p') = appendTo_call streamName [handed] :: earlier ∧
    pending (Projector.world p') =
      pending (Projector.world p) ++
      [MiddlewareTask APPENDED (bucket middleware APPENDED) handed].
Proof.
  unfold Projector.linkTo, EventStore.hasStream, EventStore.createStream,
    EventStore.appendTo.
  cbn [promise_all].
  destruct (chain PRE_APPEND (bucket middleware PRE_APPEND) event)
    as [err|handed] eqn:Hchain; run_monad.
  - destruct (ps_hasStream _ _) as [s1 [e|[|]]]; simpl; [discriminate|discriminate|].
    destruct (ps_addStreamToStreamsTable _ _) as [s2 [e|[]]]; simpl;
      [discriminate|].
    destruct (ps_createSchema _ _) as [s3 [e|[]]]; simpl; [|discriminate].
    destruct (ps_removeStreamFromStreamsTable _ _) as [s4 [e4|[]]]; simpl;
      [discriminate|].
    destruct (ps_dropSchema _ _) as [s5 [e5|[]]]; simpl; discriminate.
  - destruct (ps_hasStream _ _) as [s1 [e|[|]]]; simpl; [discriminate| |].
    + destruct (ps_appendTo _ _ _) as [s2 [e|[]]]; simpl; [discriminate|].
      intros Hlink. inversion Hlink; subst; clear Hlink. simpl. eauto.
    + destruct (ps_addStreamToStreamsTable _ _) as [s2 [e|[]]]; simpl.
      * destruct (ps_appendTo _ _ _) as [s3 [e'|[]]]; simpl; [discriminate|].
        intros Hlink. inversion Hlink; subst; clear Hlink. simpl. eauto.
      * destruct (ps_createSchema _ _) as [s3 [e|[]]]; simpl.
        { destruct (ps_removeStreamFromStreamsTable _ _) as [s4 [e4|[]]]; simpl;
            [discriminate|].
          destruct (ps_dropSchema _ _) as [s5 [e5|[]]]; simpl; discriminate. }
        destruct (ps_appendTo _ _ _) as [s4 [e'|[]]]; simpl; [discriminate|].
        intros Hlink. inversion Hlink; subst; clear Hlink. simpl. eauto.
Qed.

(** A stream that exists already is not remembered: while [streamCreated]
    is unset and [hasStream] answers true, [emit] asks [hasStream], creates
    nothing, starts the append and leaves [streamCreated] unset, so the
    next [emit] asks again. *)
Theorem emit_existing_stream_not_cached (p : P) (event : IEvent) (s' : Store) :
  Projector.streamCreated p = false →
  ps_hasStream (Projector.name p) (store (Projector.world p)) = (s', inr true) →
  let p' := fst (Projector.emit event p) in
  snd (Projector.emit event p) = inr tt ∧
  Projector.streamCreated p' = false ∧
  store (Projector.world p') = s' ∧
  trace (Projector.world p') =
    hasStream_call (Projector.name p) :: trace (Projector.world p) ∧
  pending (Projector.world p') =
    pending (Projector.world p) ++ [AppendTask (Projector.name p) [event]].
Proof.
  intros Hcreated Hhas. unfold Projector.emit, EventStore.hasStream.
  run_monad. rewrite Hcreated. simpl. rewrite Hhas. simpl. auto.
Qed.
End ProjectorMore.

(** ** The further properties on the in-memory back-end *)

Section MoreScenarios.
Import Scenario.

Lemma appendTo_success_witness :
  let w : MemWorld := world_of (store_with "s" []) ∅ in
  let nowhere : World InMemory.Faulty InMemory.Model :=
    world_of (failing [(appendTo_call "s" [], BackendError "offline")]) ∅ in
  EventStore.appendTo emptyMiddleware "s" [] nowhere = (nowhere, inr tt) ∧
  ∃ w', EventStore.appendTo emptyMiddleware "s" [event "A" "a" 1] w = (w', inr tt) ∧
        store w' = store_with "s" [event "A" "a" 1] ∧
        trace w' = appendTo_call "s" [event "A" "a" 1] :: trace w ∧
        pending w' =
          pending w ++ map (MiddlewareTask APPENDED []) [event "A" "a" 1].
Proof.
  intros w nowhere. split.
  - exact (proj1 (appendTo_success (Store := InMemory.Faulty)
                    (RM := InMemory.Model) emptyMiddleware "s" nowhere)).
  - apply (proj2 (appendTo_success (Store := InMemory.Store)
                    (RM := InMemory.Model) emptyMiddleware "s" w)
             [event "A" "a" 1] [event "A" "a" 1]);
      [discriminate|reflexivity|reflexivity].
Defined.

Lemma init_only_once_witness :
  let p : MemProjector := Projector.constructor "count" (world_of empty_store ∅) in
  let p' := fst (Projector.init zero p) in
  snd (Projector.init zero p) = inr tt ∧
  Projector.state p' = Some (zero tt) ∧
  Projector.init (λ _, ∅) p' = (p', inl (ProjectorException alreadyInitialized)).
Proof.
  intros p. apply (init_only_once p zero (λ _, ∅)). reflexivity.
Defined.

Lemma when_only_once_witness :
  Projector.when {[ "Inc" := count ]} by_name
    = inl (ProjectorException whenWasAlreadyCalled) ∧
  Projector.whenAny count by_name
    = inl (ProjectorException whenWasAlreadyCalled).
Proof.
  apply (when_only_once (Store := InMemory.Store) (RM := InMemory.Model)
           Projector.no_handlers by_name {[ "Inc" := count ]} {[ "Inc" := count ]}
           count count).
  left. reflexivity.
Defined.

Lemma from_only_once_witness :
  let p : MemProjector := Projector.constructor "count" (world_of empty_store ∅) in
  let p' := fst (Projector.fromAll p) in
  let s := {| streamName := "s"; matcher := any_kind |} in
  Projector.fromAll p' = (p', inl (ProjectorException fromWasAlreadyCalled)) ∧
  Projector.fromStream s p' = (p', inl (ProjectorException fromWasAlreadyCalled)) ∧
  Projector.fromStreams [] p' = (p', inl (ProjectorException fromWasAlreadyCalled)).
Proof.
  intros p p' s.
  apply (from_only_once p p' s s [] []); [reflexivity|]. left. reflexivity.
Defined.


Lemma persist_then_load_witness :
  let p := counter any_kind (world_of empty_store ∅) in
  let p' := fst ((Projector.persist >> Projector.load) p) in
  snd ((Projector.persist >> Projector.load) p) = inr tt ∧
  Projector.state p' = Some (default ∅ (Projector.state p)) ∧
  Projector.streamPositions p' = Projector.streamPositions p.
Proof.
  intros p. exact (persist_then_load p _ eq_refl).
Defined.

Lemma reset_effects_witness :
  let p := counter any_kind (world_of empty_store ∅) in
  let p' := fst (Projector.reset p) in
  let row := {| pr_state := ∅; pr_positions := ∅; pr_status := Some IDLE |} in
  Projector.streamPositions p' = ∅ ∧
  Projector.state p' = (λ f, f tt) <$> Projector.initHandler p ∧
  Projector.isStopped p' = Projector.isStopped p ∧
  projections (Projector.world p') =
    <[Projector.name p := row]> (projections (Projector.world p)) ∧
  trace (Projector.world p') =
    deleteStream_call (Projector.name p) ::
    projections_write (Projector.name p) row ::
    readModel_reset_call :: trace (Projector.world p) ∧
  snd (Projector.reset p) =
    snd (ps_deleteStream (Projector.name p) (store (Projector.world p))).
Proof.
  intros p. exact (reset_effects p _ eq_refl).
Defined.

Lemma reset_failure_witness :
  let p : Projector.t InMemory.Store unit :=
    Projector.constructor "count"
      {| store := empty_store; readModel := tt; projections := ∅;
         trace := []; pending := [] |} in
  let p' := fst (Projector.reset (ReadModel0 := offline) p) in
  snd (Projector.reset (ReadModel0 := offline) p)
    = inl (BackendError "read model offline") ∧
  Projector.streamPositions p' = ∅ ∧
  Projector.state p' = Projector.state p ∧
  projections (Projector.world p') = projections (Projector.world p) ∧
  store (Projector.world p') = store (Projector.world p) ∧
  trace (Projector.world p') = readModel_reset_call :: trace (Projector.world p).
Proof.
  intros p.
  exact (reset_failure (ReadModel0 := offline) p tt
           (BackendError "read model offline") eq_refl).
Defined.



(** In the sequence above the stream ["s"] has two events, numbered 4 and
    9, and its position goes from 0 to 2; the stream ["t"] has no position
    and gets [NaN]. *)
Example positions_of_two_streams :
  let p : MemProjector :=
    fst (Projector.prepareStreamPosition InMemory.eventStreams
           (counter any_kind (world_of empty_store ∅))) in
  let events := [loaded "s" "Inc" 4; loaded "t" "Inc" 6; loaded "s" "Inc" 9] in
  let p' := fst (Projector.handleStreamWithSingleHandler count events p) in
  Projector.streamPositions p' !! "s" = Some (Num 2) ∧
  Projector.streamPositions p' !! "t" = Some NaN.
Proof. vm_compute. split; reflexivity. Qed.

Lemma linkTo_appends_before_returning_witness :
  let p : MemProjector := Projector.constructor "count" (world_of empty_store ∅) in
  ∃ handed earlier,
    chain PRE_APPEND (bucket emptyMiddleware PRE_APPEND) (event "Out" "a" 1)
      = inr handed ∧
    trace (Projector.world
             (fst (Projector.linkTo emptyMiddleware "out" (event "Out" "a" 1) p)))
      = appendTo_call "out" [handed] :: earlier ∧
    pending (Projector.world
               (fst (Projector.linkTo emptyMiddleware "out" (event "Out" "a" 1) p)))
      = pending (Projector.world p) ++
        [MiddlewareTask APPENDED (bucket emptyMiddleware APPENDED) handed].
Proof.
  intros p.
  apply (linkTo_appends_before_returning emptyMiddleware "out"
           (event "Out" "a" 1) p).
  reflexivity.
Defined.

Lemma emit_existing_stream_not_cached_witness :
  let p : MemProjector :=
    Projector.constructor "count" (world_of (store_with "count" []) ∅) in
  let p' := fst (Projector.emit (event "Out" "a" 1) p) in
  snd (Projector.emit (event "Out" "a" 1) p) = inr tt ∧
  Projector.streamCreated p' = false ∧
  store (Projector.world p') = store_with "count" [] ∧
  trace (Projector.world p') =
    hasStream_call (Projector.name p) :: trace (Projector.world p) ∧
  pending (Projector.world p') =
    pending (Projector.world p) ++
    [AppendTask (Projector.name p) [event "Out" "a" 1]].
Proof.
  intros p.
  apply (emit_existing_stream_not_cached p (event "Out" "a" 1)
           (store_with "count" [])); reflexivity.
Defined.
End MoreScenarios.
